(** * resource_exporter: the [/logs] handler of [script.py]

    A shallow embedding of [get_logs] (script.py, lines 133-157): the
    handler that returns the last N lines of a log file by scanning the
    file backwards in blocks of 8192 bytes.

    The handler is pure Python over three library facilities, which are
    modelled here as the library documents and implements them:
    - [bytes.count], [bytes.splitlines], list slicing and
      [bytes.decode(errors="ignore")] (CPython's UTF-8 decoder);
    - [pathlib.Path] on a POSIX host: [Path(file)], [str(path)],
      [path.exists()], [path.is_file()], [path.open("rb")];
    - binary file objects: [seek], [tell], [read].

    Exceptions are modelled by a small error monad, the [while] loop by
    well-founded recursion on the file position.

    The file system is a function from path names to what they name:
    nothing, something that is not a regular file, a regular file with
    its bytes and whether the caller may read it, or a name that the host
    can not examine ([os.stat] fails with an error other than absence).
    Opening a file that may not be read raises [PermissionError]; once a
    file is open no call on it fails for a reason of the host (a disk
    error, a file that changes while it is read).  Closing the file at
    the end of the [with] block has no effect that the handler can see
    and is left out. *)

From Stdlib Require Import ZArith List Bool Lia.
From Stdlib.Strings Require Import String Ascii Byte.
Import Corelib.Init.Datatypes.
From Equations Require Import Equations.
From Equations.Prop Require Import Logic.
Import ListNotations.

Local Open Scope Z_scope.

Set Implicit Arguments.

(* ===================================================================== *)
(** ** Python [bytes] *)
(* ===================================================================== *)

Module PyBytes.

Definition bytes := list byte.

(** The integer value of a byte, as [b[i]] gives it in Python. *)
Definition byteZ (b : byte) : Z := Z.of_N (Byte.to_N b).

Definition LF : byte := x0a.
Definition CR : byte := x0d.

(** [data.count(b"\n")] for a one-byte needle. *)
Fixpoint count (needle : byte) (data : bytes) : Z :=
  match data with
  | [] => 0
  | b :: rest =>
      (if Byte.eqb b needle then 1 else 0) + count needle rest
  end.

(** [bytes.splitlines()] (keepends=False).  CPython scans to the next
    '\n' or '\r', reads "\r\n" as one line break, appends the segment
    before the break, and goes on after it; a last segment without a
    break is appended only when it is not empty.  [cur] holds the bytes
    of the segment read so far, newest first. *)
Fixpoint splitlines_from (cur : bytes) (data : bytes) : list bytes :=
  match data with
  | [] => match cur with [] => [] | _ => [rev cur] end
  | b :: rest =>
      if Byte.eqb b LF then rev cur :: splitlines_from [] rest
      else if Byte.eqb b CR then
        match rest with
        | b' :: rest' =>
            if Byte.eqb b' LF then rev cur :: splitlines_from [] rest'
            else rev cur :: splitlines_from [] rest
        | [] => rev cur :: splitlines_from [] rest
        end
      else splitlines_from (b :: cur) rest
  end.

Definition splitlines (data : bytes) : list bytes :=
  splitlines_from [] data.

(** The slice [l[start:]] of a Python sequence: a negative [start]
    counts from the end, and an index out of range is clamped. *)
Definition slice_from {A} (start : Z) (l : list A) : list A :=
  let len := Z.of_nat (length l) in
  let i := if start <? 0 then Z.max (len + start) 0 else Z.min start len in
  skipn (Z.to_nat i) l.

End PyBytes.
Import PyBytes.

(* ===================================================================== *)
(** ** [bytes.decode(errors="ignore")] *)
(* ===================================================================== *)

Module Utf8.

(** A Python [str] is a sequence of Unicode code points. *)
Definition str := list Z.

Definition is_continuation (ch : Z) : bool := (0x80 <=? ch) && (ch <? 0xC0).

(** [raw.decode(errors="ignore")]: the default codec is UTF-8.  CPython
    decodes the well-formed sequences of RFC 3629 (no overlong forms, no
    surrogates, nothing above U+10FFFF); on an ill-formed sequence it
    reports the range of offending bytes (one invalid start byte, the
    bytes of a sequence up to the first invalid continuation byte, or a
    truncated sequence up to the end of the input), and the "ignore"
    handler resumes after that range, emitting nothing for it. *)
Fixpoint decode_ignore (raw : bytes) : str :=
  match raw with
  | [] => []
  | c1 :: r1 =>
    let ch := byteZ c1 in
    if ch <? 0x80 then ch :: decode_ignore r1
    else if ch <? 0xC2 then decode_ignore r1
    else if ch <? 0xE0 then
      match r1 with
      | [] => []
      | c2 :: r2 =>
        let ch2 := byteZ c2 in
        if negb (is_continuation ch2) then decode_ignore r1
        else ((ch - 0xC0) * 64 + (ch2 - 0x80)) :: decode_ignore r2
      end
    else if ch <? 0xF0 then
      match r1 with
      | [] => []
      | c2 :: r2 =>
        let ch2 := byteZ c2 in
        if negb (is_continuation ch2)
           || (if ch2 <? 0xA0 then ch =? 0xE0 else ch =? 0xED)
        then decode_ignore r1
        else
          match r2 with
          | [] => []
          | c3 :: r3 =>
            let ch3 := byteZ c3 in
            if negb (is_continuation ch3) then decode_ignore r2
            else ((ch - 0xE0) * 4096 + (ch2 - 0x80) * 64 + (ch3 - 0x80))
                   :: decode_ignore r3
          end
      end
    else if ch <? 0xF5 then
      match r1 with
      | [] => []
      | c2 :: r2 =>
        let ch2 := byteZ c2 in
        if negb (is_continuation ch2)
           || (if ch2 <? 0x90 then ch =? 0xF0 else ch =? 0xF4)
        then decode_ignore r1
        else
          match r2 with
          | [] => []
          | c3 :: r3 =>
            let ch3 := byteZ c3 in
            if negb (is_continuation ch3) then decode_ignore r2
            else
              match r3 with
              | [] => []
              | c4 :: r4 =>
                let ch4 := byteZ c4 in
                if negb (is_continuation ch4) then decode_ignore r3
                else ((ch - 0xF0) * 262144 + (ch2 - 0x80) * 4096
                      + (ch3 - 0x80) * 64 + (ch4 - 0x80))
                       :: decode_ignore r4
              end
          end
      end
    else decode_ignore r1
  end.

(** The UTF-8 encoding of one code point and of a [str], as byte
    values (RFC 3629); used to state what decoding keeps. *)
Definition encode_point (cp : Z) : list Z :=
  if cp <? 0x80 then [cp]
  else if cp <? 0x800 then [0xC0 + cp / 64; 0x80 + cp mod 64]
  else if cp <? 0x10000 then
    [0xE0 + cp / 4096; 0x80 + (cp / 64) mod 64; 0x80 + cp mod 64]
  else
    [0xF0 + cp / 262144; 0x80 + (cp / 4096) mod 64;
     0x80 + (cp / 64) mod 64; 0x80 + cp mod 64].

Definition encode (s : str) : list Z := flat_map encode_point s.

(** U+FFFD REPLACEMENT CHARACTER, what [errors="replace"] would put in
    the place of an ill-formed sequence. *)
Definition REPLACEMENT : Z := 0xFFFD.

(** The code points of an ASCII literal. *)
Definition of_string (s : String.string) : str :=
  map byteZ (String.list_byte_of_string s).
Arguments of_string s%_string.

End Utf8.
Import Utf8.

(* ===================================================================== *)
(** ** Exceptions *)
(* ===================================================================== *)

Module PyExc.

Inductive exn :=
| PermissionError
| FileNotFoundError
| OSError
| HTTPException (status_code : Z) (detail : String.string).
Arguments HTTPException status_code%_Z detail%_string.

Inductive result (A : Type) :=
| Ret (a : A)
| Raise (e : exn).
Arguments Ret {A} a.
Arguments Raise {A} e.

Definition bind {A B} (m : result A) (k : A -> result B) : result B :=
  match m with
  | Ret a => k a
  | Raise e => Raise e
  end.

(** [try: body  except PermissionError as exc: handler] *)
Definition try_except_PermissionError {A}
    (body : result A) (handler : result A) : result A :=
  match body with
  | Raise PermissionError => handler
  | other => other
  end.

End PyExc.
Import PyExc.

Notation "x <- m ;; k" := (bind m (fun x => k))
  (at level 61, m at next level, right associativity).
Notation "' pat <- m ;; k" := (bind m (fun x => match x with pat => k end))
  (at level 61, pat pattern, m at next level, right associativity).

(* ===================================================================== *)
(** ** [pathlib.Path] on a POSIX host, and the file system *)
(* ===================================================================== *)

Module Pathlib.

Import String.
Local Open Scope string_scope.

(** A parsed path: the root ([""], ["/"] or ["//"]) and the components;
    there is no drive on POSIX. *)
Record Path := { root : string; parts : list string }.

(** [s.split(sep)] for a one-character separator. *)
Fixpoint split (sep : ascii) (s : string) : list string :=
  match s with
  | EmptyString => [EmptyString]
  | String c s' =>
      if Ascii.eqb c sep then EmptyString :: split sep s'
      else match split sep s' with
           | w :: ws => String c w :: ws
           | [] => [String c EmptyString]
           end
  end.

(** [posixpath.splitroot]: a path that starts with exactly two slashes
    keeps them as its root, any other absolute path has the root "/". *)
Definition splitroot (p : string) : string * string :=
  match p with
  | String "/" (String "/" (String "/" _ as rel)) => ("/", String "/" rel)
  | String "/" (String "/" rel) => ("//", rel)
  | String "/" rel => ("/", rel)
  | _ => ("", p)
  end.

Definition keep_part (x : string) : bool :=
  negb (x =? "") && negb (x =? ".").

(** [Path(file)]: the empty components and the "." components are
    dropped when the path is parsed; ".." components are kept, links are
    not followed and a relative path stays relative. *)
Definition mkPath (file : string) : Path :=
  let (rt, rel) := splitroot file in
  {| root := rt; parts := filter keep_part (split "/" rel) |}.

(** [str(path)] *)
Definition str_of (p : Path) : string :=
  let s := root p ++ concat "/" (parts p) in
  if s =? "" then "." else s.

(** An error of [os.stat] that is not a way of saying that nothing is
    there.  [Path.exists()] and [Path.is_file()] answer [False] on ENOENT,
    ENOTDIR, EBADF and ELOOP and raise every other [OSError] again: EACCES
    (a directory on the way may not be searched) comes as
    [PermissionError], ENAMETOOLONG as a plain [OSError]. *)
Inductive stat_error := EACCES | ENAMETOOLONG.

Definition exn_of_stat_error (e : stat_error) : exn :=
  match e with
  | EACCES => PermissionError
  | ENAMETOOLONG => OSError
  end.

(** What a path names, as [os.stat] and [open] see it. *)
Inductive node :=
| Absent                                   (* nothing there, or a dangling link *)
| NotRegular                               (* a directory, device, socket, ... *)
| Regular (readable : bool) (content : bytes)
| Unreachable (e : stat_error).            (* the host can not tell *)

Definition filesystem := string -> node.

(** [path.exists()] *)
Definition path_exists (fs : filesystem) (p : Path) : result bool :=
  match fs (str_of p) with
  | Absent => Ret false
  | Unreachable e => Raise (exn_of_stat_error e)
  | _ => Ret true
  end.

(** [path.is_file()] *)
Definition is_file (fs : filesystem) (p : Path) : result bool :=
  match fs (str_of p) with
  | Regular _ _ => Ret true
  | Unreachable e => Raise (exn_of_stat_error e)
  | _ => Ret false
  end.

End Pathlib.
Import Pathlib.

(* ===================================================================== *)
(** ** Binary file objects *)
(* ===================================================================== *)

Module PyIO.

Inductive whence := SEEK_SET | SEEK_CUR | SEEK_END.

(** The calls made on a file object that reach the file. *)
Inductive io_op :=
| OpSeek (offset : Z) (w : whence)
| OpRead (size : Z).

(** An open binary file: its bytes, the stream position, and the seeks
    and reads done on it so far (newest first). *)
Record fileobj := { content : bytes; pos : Z; ops : list io_op }.

Definition size (f : fileobj) : Z := Z.of_nat (length (content f)).

(** [f.tell()] *)
Definition tell (f : fileobj) : Z := pos f.

(** [f.seek(offset, whence)]: a negative target position is refused
    (OSError, EINVAL); seeking past the end is allowed. *)
Definition seek (f : fileobj) (offset : Z) (w : whence) : result fileobj :=
  let target :=
    match w with
    | SEEK_SET => offset
    | SEEK_CUR => pos f + offset
    | SEEK_END => size f + offset
    end in
  if target <? 0 then Raise OSError
  else Ret {| content := content f; pos := target;
              ops := OpSeek offset w :: ops f |}.

(** [f.read(n)]: up to [n] bytes from the position, fewer at the end of
    the file; a negative [n] reads to the end. *)
Definition read (f : fileobj) (n : Z) : bytes * fileobj :=
  let rest := skipn (Z.to_nat (pos f)) (content f) in
  let chunk := if n <? 0 then rest else firstn (Z.to_nat n) rest in
  (chunk, {| content := content f;
             pos := pos f + Z.of_nat (length chunk);
             ops := OpRead n :: ops f |}).

(** [path.open("rb")] *)
Definition open_rb (fs : filesystem) (p : Path) : result fileobj :=
  match fs (str_of p) with
  | Regular true c => Ret {| content := c; pos := 0; ops := [] |}
  | Regular false _ => Raise PermissionError
  | NotRegular => Raise OSError
  | Absent => Raise FileNotFoundError
  | Unreachable e => Raise (exn_of_stat_error e)
  end.

Definition is_read (o : io_op) : bool :=
  match o with OpRead _ => true | OpSeek _ _ => false end.

Definition reads (f : fileobj) : nat := length (filter is_read (ops f)).
Definition seeks (f : fileobj) : nat :=
  length (filter (fun o => negb (is_read o)) (ops f)).

End PyIO.
Import PyIO.


(* ===================================================================== *)
(** ** The handler *)
(* ===================================================================== *)

(** [class LogLines(BaseModel)] *)
Record LogLines := { file : String.string; lines : list str }.

(** The [file] field of a result: the path echoed to the client. *)
Definition source_path (r : LogLines) : String.string := file r.

(** [block = 8192] *)
Definition block : Z := 8192.

(** The loop test [f.tell() > 0 and data.count(b"\n") <= lines]. *)
Definition loop_test (f : fileobj) (data : bytes) (lines : Z) : bool :=
  (tell f >? 0) && (count LF data <=? lines).

(** The loop body:
<<
    jump = min(f.tell(), block)
    f.seek(-jump, os.SEEK_CUR)
    data = f.read(jump) + data
    f.seek(-jump, os.SEEK_CUR)
>> *)
Definition scan_body (f : fileobj) (data : bytes) : result (fileobj * bytes) :=
  let jump := Z.min (tell f) block in
  f <- seek f (- jump) SEEK_CUR ;;
  let (chunk, f) := read f jump in
  let data := chunk ++ data in
  f <- seek f (- jump) SEEK_CUR ;;
  Ret (f, data).

(** The [while] loop.  Each turn leaves the position strictly below where
    it was, which is the measure of the recursion. *)
Equations? scan (f : fileobj) (data : bytes) (lines : Z)
  : result (fileobj * bytes) by wf (Z.to_nat (tell f)) lt :=
  scan f data lines with inspect (loop_test f data lines) := {
    | exist _ false _ => Ret (f, data)
    | exist _ true Htest with inspect (scan_body f data) := {
        | exist _ (Ret (f', data')) Hbody => scan f' data' lines
        | exist _ (Raise e) _ => Raise e } }.
Proof.
  unfold loop_test in Htest. apply andb_prop in Htest as [Hpos _].
  apply Z.gtb_lt in Hpos. unfold tell in *.
  unfold scan_body, bind, tell in Hbody.
  destruct (seek f (- Z.min (pos f) block) SEEK_CUR) as [f1|] eqn:E1;
    [|discriminate].
  destruct (read f1 (Z.min (pos f) block)) as [chunk f2] eqn:E2.
  destruct (seek f2 (- Z.min (pos f) block) SEEK_CUR) as [f3|] eqn:E3;
    [|discriminate].
  injection Hbody as <- _.
  unfold seek in E1, E3. unfold read in E2.
  destruct (pos f + _ <? 0); [discriminate|]. injection E1 as <-.
  injection E2 as <- <-. cbn [pos content] in E3.
  destruct (_ <? 0) eqn:E4 in E3; [discriminate|]. injection E3 as <-.
  cbn [pos]. apply Z.ltb_ge in E4.
  set (chunk := if _ <? 0 then _ else _) in *.
  assert (Hlen : Z.of_nat (length chunk) <= Z.min (pos f) block).
  { subst chunk. destruct (Z.min (pos f) block <? 0) eqn:E5.
    - apply Z.ltb_lt in E5. unfold block in *. lia.
    - rewrite length_firstn. lia. }
  unfold block in *. lia.
Qed.

(** [a and b] on two tests that may raise: [b] is run when [a] holds. *)
Definition py_and (a b : result bool) : result bool :=
  x <- a ;; if x then b else Ret false.

(** [async def get_logs(file, lines)], the handler of [GET /logs].  The
    test [path.exists() and path.is_file()] stands before the [try]: what
    it raises is not caught. *)
Definition get_logs (fs : filesystem) (file : String.string) (lines : Z)
  : result LogLines :=
  let path := mkPath file in
  found <- py_and (path_exists fs path) (is_file fs path) ;;
  if negb found then
    Raise (HTTPException 404 "Log file not found")
  else
    try_except_PermissionError
      (f <- open_rb fs path ;;
       f <- seek f 0 SEEK_END ;;
       let data : bytes := [] in
       '(f, data) <- scan f data lines ;;
       let last := slice_from (- lines) (splitlines data) in
       Ret {| file := str_of path; lines := map decode_ignore last |})
      (Raise (HTTPException 403 "Permission denied")).

Arguments get_logs fs file%_string lines%_Z.

(** [lines: int = Query(50, ge=1, le=500)]: the range the route accepts. *)
Definition query_ok (lines : Z) : Prop := 1 <= lines <= 500.

(* ===================================================================== *)
(** ** Notions used to state the properties *)
(* ===================================================================== *)

Local Open Scope string_scope.
Local Open Scope list_scope.
Local Open Scope Z_scope.

(** What holds of the handle [f] and the buffer [data] at the loop head,
    for a file of bytes [c] read for [n] lines: the buffer is the part of
    the file from the position on; every turn so far but the last moved a
    whole block; and what was in the buffer before the newest block was
    added held at most [n] newlines. *)
Record scan_inv (c : bytes) (n : Z) (f : fileobj) (data : bytes) : Prop := {
  inv_content : content f = c;
  inv_pos : 0 <= tell f <= size f;
  inv_data : data = skipn (Z.to_nat (tell f)) c;
  inv_seeks : seeks f = (1 + 2 * reads f)%nat;
  inv_reads_lo : size f - tell f <= Z.of_nat (reads f) * block;
  inv_reads_hi : Z.of_nat (reads f) * block < size f - tell f + block;
  inv_aligned : 0 < tell f -> size f - tell f = Z.of_nat (reads f) * block;
  inv_prev : tell f < size f ->
             count LF (skipn (Z.to_nat block) data) <= n
}.

(** The handle once [path.open("rb")] and [f.seek(0, os.SEEK_END)] are
    done on a file of bytes [c]. *)
Definition at_end (c : bytes) : fileobj :=
  {| content := c; pos := Z.of_nat (length c); ops := [OpSeek 0 SEEK_END] |}.

(** The logical lines of a file, as text. *)
Definition logical_lines (c : bytes) : list str :=
  map decode_ignore (splitlines c).

(** The buffer the loop ends with, and the handle it ends with. *)
Definition tail_buffer (c : bytes) (n : Z) : bytes :=
  match scan (at_end c) [] n with
  | Ret (_, data) => data
  | Raise _ => []
  end.

Definition tail_handle (c : bytes) (n : Z) : fileobj :=
  match scan (at_end c) [] n with
  | Ret (f, _) => f
  | Raise _ => at_end c
  end.

(** The lines that follow the first line break of [data]. *)
Fixpoint after_break (data : bytes) : list bytes :=
  match data with
  | [] => []
  | b :: rest =>
      if Byte.eqb b LF then splitlines rest
      else if Byte.eqb b CR then
        match rest with
        | b' :: rest' =>
            if Byte.eqb b' LF then splitlines rest' else splitlines rest
        | [] => splitlines rest
        end
      else after_break rest
  end.

(** A line break is not part of any line. *)
Definition not_eol (b : byte) : Prop := b <> LF /\ b <> CR.

(** The last [k] entries of a list, all of them when there are fewer. *)
Definition lastn {A} (k : nat) (l : list A) : list A :=
  skipn (length l - k) l.

(** A byte that is not ASCII: a lead byte, a continuation byte or an
    invalid byte. *)
Definition high (b : byte) : Prop := 0x80 <= byteZ b.

(** A Unicode scalar value: a code point that is not a surrogate. *)
Definition scalar (cp : Z) : Prop :=
  0 <= cp <= 0x10FFFF /\ ~ (0xD800 <= cp <= 0xDFFF).

(** [l1] is [l2] with some entries removed. *)
Inductive subseq {A : Type} : list A -> list A -> Prop :=
| subseq_nil : subseq [] []
| subseq_skip : forall x l1 l2, subseq l1 l2 -> subseq l1 (x :: l2)
| subseq_keep : forall x l1 l2, subseq l1 l2 -> subseq (x :: l1) (x :: l2).

(** Every [L] bytes in a row of [c] hold a newline, the byte '\n'; a
    '\r' is not one. *)
Definition lines_within (L : nat) (c : bytes) : Prop :=
  forall i : nat,
    (i + L <= length c)%nat -> 1 <= count LF (firstn L (skipn i c)).

(** The shape of a canonical path, one that [os.path.realpath] or
    [Path.resolve()] could return: absolute, with no "." and no ".."
    component. *)
Definition canonical_shape (p : string) : bool :=
  match p with
  | String "/" _ =>
      forallb (fun x => negb (String.eqb x "..") && negb (String.eqb x "."))
              (split "/" p)
  | _ => false
  end.

(* ===================================================================== *)
(** ** Sample files *)
(* ===================================================================== *)

(** The bytes of an ASCII literal. *)
Definition ascii_bytes (s : string) : bytes := list_byte_of_string s.

Definition log_path : string := "/var/log/app.log".

(** A file system with one regular file, at [p]. *)
Definition one_file (p : string) (readable : bool) (c : bytes) : filesystem :=
  fun q => if String.eqb q p then Regular readable c else Absent.

(** "a\nb\nc\n" *)
Definition abc_log : bytes :=
  ascii_bytes "a" ++ [LF] ++ ascii_bytes "b" ++ [LF] ++ ascii_bytes "c" ++ [LF].

(** "a\xffb\n": the byte 0xFF can not occur in UTF-8. *)
Definition corrupt_log : bytes :=
  ascii_bytes "a" ++ [xff] ++ ascii_bytes "b" ++ [LF].

(** "one\r\ntwo\rthree\nfour" *)
Definition mixed_log : bytes :=
  ascii_bytes "one" ++ [CR; LF] ++ ascii_bytes "two" ++ [CR]
    ++ ascii_bytes "three" ++ [LF] ++ ascii_bytes "four".

(** A file of [k] bytes 'a', with no line break at all. *)
Definition long_line (k : Z) : bytes := repeat x61 (Z.to_nat k).

(** A file of [m] lines "x", each ended by "\r" alone. *)
Fixpoint cr_lines (m : nat) : bytes :=
  match m with
  | O => []
  | S m' => x78 :: CR :: cr_lines m'
  end.




(** A file system where the file "app.log" of the working directory is
    reached by two spellings. *)
Definition two_spellings : filesystem :=
  fun q =>
    if String.eqb q "app.log" then Regular true abc_log
    else if String.eqb q "logs/../app.log" then Regular true abc_log
    else if String.eqb q "logs" then NotRegular
    else Absent.

(* ===================================================================== *)
(** ** The route and the reads *)
(* ===================================================================== *)

(** The parameters of [GET /logs] as the route declares them:
    [file: str = Query("/var/log/README", ...)] and
    [lines: int = Query(50, ge=1, le=500)].  A parameter that the request
    leaves out takes its default; a line count out of range is refused
    before the handler runs (the framework answers 422), which is [None]
    here. *)
Definition logs_query (file : option string) (lines : option Z)
  : option (string * Z) :=
  let file := match file with Some f => f | None => "/var/log/README" end in
  let lines := match lines with Some n => n | None => 50 end in
  if (1 <=? lines) && (lines <=? 500) then Some (file, lines) else None.

(** The route: the handler on the validated parameters. *)
Definition logs_route (fs : filesystem) (file : option string)
    (lines : option Z) : option (result LogLines) :=
  match logs_query file lines with
  | Some (f, n) => Some (get_logs fs f n)
  | None => None
  end.

(** The sizes asked of [f.read] in a log of calls, newest first. *)
Fixpoint read_sizes (l : list io_op) : list Z :=
  match l with
  | [] => []
  | OpRead k :: l' => k :: read_sizes l'
  | OpSeek _ _ :: l' => read_sizes l'
  end.

(** The sum of a list of sizes. *)
Definition total (l : list Z) : Z := fold_right Z.add 0 l.

(** A log as a writer makes it: each line followed by its line break,
    "\r\n" where the flag is set and "\n" where it is not. *)
Fixpoint write_lines (ls : list (bytes * bool)) : bytes :=
  match ls with
  | [] => []
  | (l, crlf) :: rest =>
      l ++ (if crlf then [CR; LF] else [LF]) ++ write_lines rest
  end.

(** A name with no "/" in it. *)
Fixpoint slash_free (s : string) : Prop :=
  match s with
  | EmptyString => True
  | String c s' => c <> "/"%char /\ slash_free s'
  end.

(* ===================================================================== *)
(** ** The loop: unfolding, one turn, and the invariant *)
(* ===================================================================== *)

Lemma block_pos : 0 < block.
Proof. reflexivity. Qed.

(** [scan] satisfies the equation of the [while] loop. *)
Lemma scan_while (f : fileobj) (data : bytes) (n : Z) :
  scan f data n =
  if loop_test f data n then
    match scan_body f data with
    | Ret (f', data') => scan f' data' n
    | Raise e => Raise e
    end
  else Ret (f, data).
Proof.
  funelim (scan f data n);
    match goal with
    | H : loop_test _ _ _ = false |- _ => rewrite H; reflexivity
    | H1 : loop_test _ _ _ = true, H2 : scan_body _ _ = _ |- _ =>
        rewrite H1, H2; reflexivity
    end.
Qed.

(** One turn of the loop on a handle whose position is inside the file. *)
Lemma scan_body_step (f : fileobj) (data : bytes) :
  0 < tell f <= size f ->
  let jump := Z.min (tell f) block in
  scan_body f data =
  Ret ({| content := content f;
          pos := tell f - jump;
          ops := OpSeek (- jump) SEEK_CUR :: OpRead jump
                   :: OpSeek (- jump) SEEK_CUR :: ops f |},
       firstn (Z.to_nat jump) (skipn (Z.to_nat (tell f - jump)) (content f))
         ++ data).
Proof.
  intros [Hpos Hsz] jump. unfold scan_body, tell, size in *. fold jump.
  assert (Hj : 0 < jump <= pos f) by (subst jump; pose proof block_pos; lia).
  unfold seek at 1. cbn [bind].
  replace (pos f + - jump <? 0) with false by (symmetry; apply Z.ltb_ge; lia).
  unfold read. cbn [pos content ops].
  replace (jump <? 0) with false by (symmetry; apply Z.ltb_ge; lia).
  replace (pos f + - jump) with (pos f - jump) by lia.
  set (chunk := firstn _ _).
  assert (Hlen : Z.of_nat (length chunk) = jump).
  { subst chunk. rewrite length_firstn, length_skipn. lia. }
  unfold seek. cbn [pos content ops bind]. fold chunk. rewrite Hlen.
  replace (pos f - jump + jump + - jump <? 0) with false
    by (symmetry; apply Z.ltb_ge; lia).
  cbn [bind].
  replace (pos f - jump + jump + - jump) with (pos f - jump) by lia.
  reflexivity.
Qed.

Lemma count_nonneg (x : byte) (l : bytes) : 0 <= count x l.
Proof. induction l as [|y l IH]; cbn; [lia|]. destruct (Byte.eqb y x); lia. Qed.

Lemma count_app (x : byte) (l1 l2 : bytes) :
  count x (l1 ++ l2) = count x l1 + count x l2.
Proof. induction l1 as [|y l1 IH]; cbn; [reflexivity|]. rewrite IH. lia. Qed.

Lemma count_skipn_le (x : byte) (k : nat) (l : bytes) :
  count x (skipn k l) <= count x l.
Proof.
  rewrite <- (firstn_skipn k l) at 2. rewrite count_app.
  pose proof (count_nonneg x (firstn k l)). lia.
Qed.

Lemma count_le_length (x : byte) (l : bytes) :
  count x l <= Z.of_nat (length l).
Proof.
  induction l as [|y l IH]; cbn [count length]; [lia|].
  destruct (Byte.eqb y x); lia.
Qed.

Lemma skipn_firstn_glue {A} (i j : nat) (l : list A) :
  firstn j (skipn i l) ++ skipn (i + j) l = skipn i l.
Proof.
  rewrite Nat.add_comm, <- skipn_skipn. apply firstn_skipn.
Qed.

(** The state at the loop head before the first turn. *)
Lemma scan_inv_init (c : bytes) (n : Z) :
  scan_inv c n
    {| content := c; pos := Z.of_nat (length c);
       ops := [OpSeek 0 SEEK_END] |} [].
Proof.
  constructor; unfold tell, size, seeks, reads; cbn; try lia.
  - reflexivity.
  - rewrite Nat2Z.id, skipn_all. reflexivity.
  - pose proof block_pos. lia.
Qed.

(** A turn of the loop keeps the invariant and moves the position back by
    [jump = min(f.tell(), block) > 0]. *)
Lemma scan_inv_step (c : bytes) (n : Z) (f : fileobj) (data : bytes) :
  scan_inv c n f data ->
  loop_test f data n = true ->
  exists f' data',
    scan_body f data = Ret (f', data')
    /\ scan_inv c n f' data'
    /\ tell f' = tell f - Z.min (tell f) block
    /\ 0 < Z.min (tell f) block
    /\ reads f' = S (reads f).
Proof.
  intros [Hc Hp Hd Hs Hlo Hhi Hal Hprev] Ht.
  unfold loop_test in Ht. apply andb_prop in Ht as [Hpos Hcnt].
  apply Z.gtb_lt in Hpos. apply Z.leb_le in Hcnt.
  pose proof block_pos as Hb.
  set (jump := Z.min (tell f) block).
  assert (Hj : 0 < jump <= tell f) by (subst jump; lia).
  eexists _, _. split; [apply scan_body_step; lia|]. fold jump.
  assert (Hr : forall o, reads {| content := content f; pos := o;
                 ops := OpSeek (- jump) SEEK_CUR :: OpRead jump
                          :: OpSeek (- jump) SEEK_CUR :: ops f |}
               = S (reads f)) by reflexivity.
  assert (Hdata : firstn (Z.to_nat jump)
                    (skipn (Z.to_nat (tell f - jump)) (content f)) ++ data
                  = skipn (Z.to_nat (tell f - jump)) c).
  { rewrite Hd, Hc.
    replace (Z.to_nat (tell f)) with
      (Z.to_nat (tell f - jump) + Z.to_nat jump)%nat by lia.
    apply skipn_firstn_glue. }
  assert (Hchunk : length (firstn (Z.to_nat jump)
                    (skipn (Z.to_nat (tell f - jump)) (content f)))
                   = Z.to_nat jump).
  { rewrite length_firstn, length_skipn. unfold tell, size in *. lia. }
  repeat split; try assumption; try reflexivity;
    unfold tell, size in *; cbn [pos content] in *; try rewrite Hr; try lia.
  - unfold seeks in *. cbn [filter is_read negb length ops]. lia.
  - intros _. rewrite skipn_app, Hchunk, count_app.
    rewrite skipn_all2 by (rewrite Hchunk; lia). cbn [count].
    pose proof (count_skipn_le LF (Z.to_nat block - Z.to_nat jump) data).
    lia.
Qed.

(** The loop ends, without raising, in a state that satisfies the
    invariant and fails the loop test. *)
Lemma scan_exit (c : bytes) (n : Z) (f : fileobj) (data : bytes) :
  scan_inv c n f data ->
  exists f' data',
    scan f data n = Ret (f', data')
    /\ scan_inv c n f' data'
    /\ loop_test f' data' n = false.
Proof.
  remember (Z.to_nat (tell f)) as k eqn:Hk.
  revert f data Hk.
  induction k as [k IH] using lt_wf_ind. intros f data Hk Hinv.
  rewrite scan_while.
  destruct (loop_test f data n) eqn:Ht.
  - destruct (scan_inv_step Hinv Ht) as (f1 & d1 & Hb & Hinv1 & Htell & Hj & _).
    rewrite Hb.
    apply (IH (Z.to_nat (tell f1))); [|reflexivity|exact Hinv1].
    pose proof (inv_pos Hinv1). lia.
  - exists f, data. auto.
Qed.

(* ===================================================================== *)
(** ** [splitlines]: an induction principle and the facts about breaks *)
(* ===================================================================== *)

Section SplitlinesInd.

Variable P : bytes -> bytes -> list bytes -> Prop.

Hypothesis P_end : forall cur,
  P cur [] (match cur with [] => [] | _ => [rev cur] end).
Hypothesis P_lf : forall cur rest,
  P [] rest (splitlines_from [] rest) ->
  P cur (LF :: rest) (rev cur :: splitlines_from [] rest).
Hypothesis P_crlf : forall cur rest,
  P [] rest (splitlines_from [] rest) ->
  P cur (CR :: LF :: rest) (rev cur :: splitlines_from [] rest).
Hypothesis P_cr : forall cur rest,
  (forall rest', rest <> LF :: rest') ->
  P [] rest (splitlines_from [] rest) ->
  P cur (CR :: rest) (rev cur :: splitlines_from [] rest).
Hypothesis P_byte : forall cur b rest,
  b <> LF -> b <> CR ->
  P (b :: cur) rest (splitlines_from (b :: cur) rest) ->
  P cur (b :: rest) (splitlines_from (b :: cur) rest).

(** Induction along the cases of [splitlines_from]. *)
Lemma splitlines_from_cases (data cur : bytes) :
  P cur data (splitlines_from cur data).
Proof.
  remember (length data) as k eqn:Hk. revert data cur Hk.
  induction k as [k IH] using lt_wf_ind. intros data cur Hk.
  destruct data as [|b rest]; [apply P_end|].
  cbn [splitlines_from length] in *.
  destruct (Byte.eqb b LF) eqn:E1.
  { apply byte_dec_bl in E1. subst b.
    apply P_lf. apply (IH (length rest)); [lia|reflexivity]. }
  destruct (Byte.eqb b CR) eqn:E2.
  { apply byte_dec_bl in E2. subst b.
    destruct rest as [|b' rest'].
    - apply P_cr; [discriminate|]. apply P_end.
    - destruct (Byte.eqb b' LF) eqn:E3.
      + apply byte_dec_bl in E3. subst b'.
        apply P_crlf.
        apply (IH (length rest')); [subst k; cbn [length]; lia|reflexivity].
      + apply P_cr.
        * intros r' Hr. injection Hr as -> _. discriminate E3.
        * apply (IH (length (b' :: rest'))); [subst k; cbn [length]; lia|reflexivity]. }
  apply P_byte; [apply eqb_false, E1|apply eqb_false, E2|].
  apply (IH (length rest)); [lia|reflexivity].
Qed.

End SplitlinesInd.

(** All the lines but the first do not depend on how the first began. *)
Lemma splitlines_from_tl (cur data : bytes) :
  tl (splitlines_from cur data) = after_break data.
Proof.
  revert cur. induction data as [|b rest IH]; intros cur.
  - destruct cur; reflexivity.
  - cbn [splitlines_from after_break].
    destruct (Byte.eqb b LF); [reflexivity|].
    destruct (Byte.eqb b CR).
    + destruct rest as [|b' rest']; [reflexivity|].
      destruct (Byte.eqb b' LF); reflexivity.
    + apply IH.
Qed.

Lemma splitlines_from_hd_tl (cur data : bytes) :
  splitlines_from cur data =
  firstn 1 (splitlines_from cur data) ++ after_break data.
Proof.
  rewrite <- (splitlines_from_tl cur data).
  destruct (splitlines_from cur data); reflexivity.
Qed.

(** Cutting a file anywhere, even inside a line or between the two bytes
    of a "\r\n", leaves the lines after the first break of the second part
    as they are in the whole file, at its end. *)
Lemma splitlines_from_app (pre data cur : bytes) :
  exists X, splitlines_from cur (pre ++ data) = X ++ after_break data.
Proof.
  remember (length pre) as k eqn:Hk. revert pre cur Hk.
  induction k as [k IH] using lt_wf_ind. intros pre cur Hk.
  destruct pre as [|b p].
  - cbn [app]. eexists. apply splitlines_from_hd_tl.
  - cbn [app splitlines_from length] in *.
    destruct (Byte.eqb b LF) eqn:E1.
    { destruct (IH (length p) ltac:(lia) p [] eq_refl) as [X HX].
      exists (rev cur :: X). rewrite HX. reflexivity. }
    destruct (Byte.eqb b CR) eqn:E2.
    { destruct p as [|b' p']; cbn [app length] in *.
      - destruct data as [|b' d'].
        + exists [rev cur]. reflexivity.
        + cbn [after_break]. destruct (Byte.eqb b' LF) eqn:E3.
          * exists [rev cur]. reflexivity.
          * exists (rev cur :: firstn 1 (splitlines_from [] (b' :: d'))).
            cbn [app]. f_equal.
            rewrite (splitlines_from_hd_tl [] (b' :: d')) at 1.
            cbn [after_break]. rewrite E3. reflexivity.
      - destruct (Byte.eqb b' LF) eqn:E3.
        + destruct (IH (length p') ltac:(lia) p' [] eq_refl) as [X HX].
          exists (rev cur :: X). rewrite HX. reflexivity.
        + destruct (IH (length (b' :: p')) ltac:(cbn; lia) (b' :: p') []
                      eq_refl) as [X HX].
          exists (rev cur :: X). cbn [app] in HX. rewrite HX. reflexivity. }
    destruct (IH (length p) ltac:(lia) p (b :: cur) eq_refl) as [X HX].
    exists X. exact HX.
Qed.

(** Every newline ends a line, so a buffer holds at least as many lines
    as newlines. *)
Lemma count_le_splitlines (data cur : bytes) :
  count LF data <= Z.of_nat (length (splitlines_from cur data)).
Proof.
  apply splitlines_from_cases with
    (P := fun _ d ls => count LF d <= Z.of_nat (length ls));
    intros; cbn [count length]; try lia.
  - change (Byte.eqb LF LF) with true. lia.
  - change (Byte.eqb CR LF) with false. change (Byte.eqb LF LF) with true.
    lia.
  - change (Byte.eqb CR LF) with false. lia.
  - destruct (Byte.eqb b LF) eqn:E; [apply byte_dec_bl in E; contradiction|].
    lia.
Qed.

Lemma splitlines_from_not_eol (data cur : bytes) :
  Forall not_eol cur ->
  Forall (Forall not_eol) (splitlines_from cur data).
Proof.
  apply splitlines_from_cases with
    (P := fun c _ ls => Forall not_eol c -> Forall (Forall not_eol) ls).
  - intros c Hc. destruct c; [constructor|].
    constructor; [|constructor]. apply Forall_rev, Hc.
  - intros c rest IH Hc. constructor; [apply Forall_rev, Hc|]. apply IH.
    constructor.
  - intros c rest IH Hc. constructor; [apply Forall_rev, Hc|]. apply IH.
    constructor.
  - intros c rest _ IH Hc. constructor; [apply Forall_rev, Hc|]. apply IH.
    constructor.
  - intros c b rest H1 H2 IH Hc. apply IH. constructor; [split|]; assumption.
Qed.

(* ===================================================================== *)
(** ** The slice [[-lines:]] *)
(* ===================================================================== *)

Lemma slice_from_neg {A} (n : Z) (l : list A) :
  1 <= n -> slice_from (- n) l = lastn (Z.to_nat n) l.
Proof.
  intros Hn. unfold slice_from, lastn.
  replace (- n <? 0) with true by (symmetry; apply Z.ltb_lt; lia).
  f_equal. lia.
Qed.

Lemma lastn_length {A} (k : nat) (l : list A) :
  length (lastn k l) = Nat.min k (length l).
Proof. unfold lastn. rewrite length_skipn. lia. Qed.

Lemma lastn_all {A} (k : nat) (l : list A) :
  (length l <= k)%nat -> lastn k l = l.
Proof.
  intros H. unfold lastn. replace (length l - k)%nat with 0%nat by lia.
  reflexivity.
Qed.

Lemma lastn_app {A} (k : nat) (l1 l2 : list A) :
  (k <= length l2)%nat -> lastn k (l1 ++ l2) = lastn k l2.
Proof.
  intros H. unfold lastn. rewrite length_app, skipn_app.
  replace (length l1 + length l2 - k - length l1)%nat
    with (length l2 - k)%nat by lia.
  rewrite skipn_all2 by lia. reflexivity.
Qed.

(* ===================================================================== *)
(** ** The decoder: an induction principle and what decoding keeps *)
(* ===================================================================== *)

Lemma byteZ_range (b : byte) : 0 <= byteZ b < 256.
Proof.
  unfold byteZ. pose proof (Byte.to_N_bounded b). lia.
Qed.

Lemma byteZ_inj (b1 b2 : byte) : byteZ b1 = byteZ b2 -> b1 = b2.
Proof.
  unfold byteZ. intros H. apply N2Z.inj in H.
  assert (E : Byte.of_N (Byte.to_N b1) = Byte.of_N (Byte.to_N b2))
    by (rewrite H; reflexivity).
  rewrite !Byte.of_to_N in E. congruence.
Qed.

Ltac decide_ltb :=
  repeat match goal with
  | |- context [?a <? ?b] =>
      destruct (Z.ltb_spec a b); try lia
  end.

Lemma encode_point_1 (a : Z) : a < 0x80 -> encode_point a = [a].
Proof. intros. unfold encode_point. decide_ltb. reflexivity. Qed.

Lemma encode_point_2 (a b : Z) :
  0xC2 <= a < 0xE0 -> 0x80 <= b < 0xC0 ->
  encode_point ((a - 0xC0) * 64 + (b - 0x80)) = [a; b].
Proof.
  intros Ha Hb. unfold encode_point. decide_ltb.
  f_equal; [|f_equal]; Z.div_mod_to_equations; lia.
Qed.

Lemma encode_point_3 (a b c : Z) :
  0xE0 <= a < 0xF0 -> 0x80 <= b < 0xC0 -> 0x80 <= c < 0xC0 ->
  (a = 0xE0 -> 0xA0 <= b) ->
  encode_point ((a - 0xE0) * 4096 + (b - 0x80) * 64 + (c - 0x80))
  = [a; b; c].
Proof.
  intros Ha Hb Hc Hov. unfold encode_point. decide_ltb.
  f_equal; [|f_equal; [|f_equal]]; Z.div_mod_to_equations; lia.
Qed.

Lemma encode_point_4 (a b c d : Z) :
  0xF0 <= a < 0xF5 -> 0x80 <= b < 0xC0 -> 0x80 <= c < 0xC0 ->
  0x80 <= d < 0xC0 ->
  (a = 0xF0 -> 0x90 <= b) ->
  encode_point ((a - 0xF0) * 262144 + (b - 0x80) * 4096
                + (c - 0x80) * 64 + (d - 0x80))
  = [a; b; c; d].
Proof.
  intros Ha Hb Hc Hd Hov. unfold encode_point. decide_ltb.
  f_equal; [|f_equal; [|f_equal; [|f_equal]]]; Z.div_mod_to_equations; lia.
Qed.

Lemma is_continuation_true (ch : Z) :
  is_continuation ch = true -> 0x80 <= ch < 0xC0.
Proof.
  unfold is_continuation. intros H. apply andb_prop in H as [H1 H2].
  apply Z.leb_le in H1. apply Z.ltb_lt in H2. lia.
Qed.

Section DecodeInd.

Variable P : bytes -> str -> Prop.

(** The input is used up, or ends inside a sequence. *)
Hypothesis P_end : forall raw, Forall high raw -> P raw [].
(** The bytes [used] are ill-formed and give nothing. *)
Hypothesis P_drop : forall used rest,
  used <> [] -> Forall high used ->
  P rest (decode_ignore rest) ->
  P (used ++ rest) (decode_ignore rest).
(** An ASCII byte gives its own code point. *)
Hypothesis P_ascii : forall c rest,
  byteZ c < 0x80 ->
  P rest (decode_ignore rest) ->
  P (c :: rest) (byteZ c :: decode_ignore rest).
(** The bytes [used] are the encoding of a code point [cp]. *)
Hypothesis P_multi : forall used rest cp,
  0x80 <= cp <= 0x10FFFF -> ~ (0xD800 <= cp <= 0xDFFF) ->
  Forall high used ->
  encode_point cp = map byteZ used ->
  P rest (decode_ignore rest) ->
  P (used ++ rest) (cp :: decode_ignore rest).

(** Induction along the cases of the decoder. *)
Lemma decode_ignore_cases (raw : bytes) : P raw (decode_ignore raw).
Proof.
  remember (length raw) as k eqn:Hk. revert raw Hk.
  induction k as [k IH] using lt_wf_ind. intros raw Hk.
  assert (IH' : forall rest, (length rest < length raw)%nat ->
                             P rest (decode_ignore rest)).
  { intros rest Hlt. apply (IH (length rest)); [lia|reflexivity]. }
  clear IH Hk k.
  destruct raw as [|c1 r1]; [apply P_end; constructor|].
  cbn [decode_ignore]. pose proof (byteZ_range c1) as R1.
  set (ch := byteZ c1) in *.
  assert (Hdrop1 : (0x80 <= ch) -> P (c1 :: r1) (decode_ignore r1)).
  { intros Hh. apply (P_drop (used:=[c1]) (rest:=r1)); [discriminate|repeat constructor; exact Hh|].
    apply IH'. cbn. lia. }
  destruct (Z.ltb_spec ch 0x80) as [L1|L1].
  { apply P_ascii; [exact L1|]. apply IH'. cbn. lia. }
  destruct (Z.ltb_spec ch 0xC2) as [L2|L2]; [apply Hdrop1; lia|].
  destruct (Z.ltb_spec ch 0xE0) as [L3|L3].
  { (* two bytes *)
    destruct r1 as [|c2 r2]; [apply P_end; repeat constructor; exact L1|].
    pose proof (byteZ_range c2) as R2. set (ch2 := byteZ c2) in *.
    destruct (is_continuation ch2) eqn:C2; cbn [negb];
      [|apply Hdrop1; lia].
    apply is_continuation_true in C2.
    apply (P_multi (used:=[c1; c2]) (rest:=r2)).
    - lia.
    - lia.
    - repeat constructor; unfold high; fold ch; fold ch2; lia.
    - cbn [map]. fold ch ch2. apply encode_point_2; lia.
    - apply IH'. cbn. lia. }
  destruct (Z.ltb_spec ch 0xF0) as [L4|L4].
  { (* three bytes *)
    destruct r1 as [|c2 r2]; [apply P_end; repeat constructor; exact L1|].
    pose proof (byteZ_range c2) as R2. set (ch2 := byteZ c2) in *.
    destruct (is_continuation ch2) eqn:C2; cbn [negb orb];
      [|apply Hdrop1; lia].
    apply is_continuation_true in C2.
    destruct (if ch2 <? 0xA0 then ch =? 0xE0 else ch =? 0xED) eqn:G;
      [apply Hdrop1; lia|].
    assert (HG : (ch = 0xE0 -> 0xA0 <= ch2) /\ (ch = 0xED -> ch2 < 0xA0)).
    { destruct (Z.ltb_spec ch2 0xA0); apply Z.eqb_neq in G; lia. }
    destruct r2 as [|c3 r3].
    { apply P_end. repeat constructor; unfold high; fold ch; fold ch2; lia. }
    pose proof (byteZ_range c3) as R3. set (ch3 := byteZ c3) in *.
    destruct (is_continuation ch3) eqn:C3; cbn [negb].
    - apply is_continuation_true in C3.
      apply (P_multi (used:=[c1; c2; c3]) (rest:=r3)).
      + lia.
      + lia.
      + repeat constructor; unfold high; fold ch; fold ch2; fold ch3; lia.
      + cbn [map]. fold ch ch2 ch3. apply encode_point_3; lia.
      + apply IH'. cbn. lia.
    - apply (P_drop (used:=[c1; c2]) (rest:=(c3 :: r3))); [discriminate| |].
      + repeat constructor; unfold high; fold ch; fold ch2; lia.
      + apply IH'. cbn. lia. }
  destruct (Z.ltb_spec ch 0xF5) as [L5|L5]; [|apply Hdrop1; lia].
  (* four bytes *)
  destruct r1 as [|c2 r2]; [apply P_end; repeat constructor; exact L1|].
  pose proof (byteZ_range c2) as R2. set (ch2 := byteZ c2) in *.
  destruct (is_continuation ch2) eqn:C2; cbn [negb orb];
    [|apply Hdrop1; lia].
  apply is_continuation_true in C2.
  destruct (if ch2 <? 0x90 then ch =? 0xF0 else ch =? 0xF4) eqn:G;
    [apply Hdrop1; lia|].
  assert (HG : (ch = 0xF0 -> 0x90 <= ch2) /\ (ch = 0xF4 -> ch2 < 0x90)).
  { destruct (Z.ltb_spec ch2 0x90); apply Z.eqb_neq in G; lia. }
  destruct r2 as [|c3 r3].
  { apply P_end. repeat constructor; unfold high; fold ch; fold ch2; lia. }
  pose proof (byteZ_range c3) as R3. set (ch3 := byteZ c3) in *.
  destruct (is_continuation ch3) eqn:C3; cbn [negb].
  2:{ apply (P_drop (used:=[c1; c2]) (rest:=(c3 :: r3))); [discriminate| |].
      - repeat constructor; unfold high; fold ch; fold ch2; lia.
      - apply IH'. cbn. lia. }
  apply is_continuation_true in C3.
  destruct r3 as [|c4 r4].
  { apply P_end.
    repeat constructor; unfold high; fold ch; fold ch2; fold ch3; lia. }
  pose proof (byteZ_range c4) as R4. set (ch4 := byteZ c4) in *.
  destruct (is_continuation ch4) eqn:C4; cbn [negb].
  2:{ apply (P_drop (used:=[c1; c2; c3]) (rest:=(c4 :: r4))); [discriminate| |].
      - repeat constructor; unfold high; fold ch; fold ch2; fold ch3; lia.
      - apply IH'. cbn. lia. }
  apply is_continuation_true in C4.
  apply (P_multi (used:=[c1; c2; c3; c4]) (rest:=r4)).
  - lia.
  - lia.
  - repeat constructor; unfold high; fold ch; fold ch2; fold ch3;
      fold ch4; lia.
  - cbn [map]. fold ch ch2 ch3 ch4. apply encode_point_4; lia.
  - apply IH'. cbn. lia.
Qed.

End DecodeInd.

Lemma subseq_nil_l {A} (l : list A) : subseq [] l.
Proof. induction l; constructor; assumption. Qed.

Lemma subseq_app_skip {A} (l0 l1 l2 : list A) :
  subseq l1 l2 -> subseq l1 (l0 ++ l2).
Proof. intros H. induction l0; cbn; [assumption|constructor; assumption]. Qed.

Lemma subseq_app_keep {A} (l0 l1 l2 : list A) :
  subseq l1 l2 -> subseq (l0 ++ l1) (l0 ++ l2).
Proof. intros H. induction l0; cbn; [assumption|constructor; assumption]. Qed.

Lemma subseq_length {A} (l1 l2 : list A) :
  subseq l1 l2 -> (length l1 <= length l2)%nat.
Proof. induction 1; cbn; lia. Qed.

(** Decoding only removes bytes: the text that comes out, encoded again,
    is the input with some bytes taken away; nothing is put in. *)
Lemma decode_ignore_subseq (raw : bytes) :
  subseq (encode (decode_ignore raw)) (map byteZ raw).
Proof.
  apply decode_ignore_cases with
    (P := fun raw s => subseq (encode s) (map byteZ raw)).
  - intros r _. apply subseq_nil_l.
  - intros used rest _ _ IH. rewrite map_app. apply subseq_app_skip, IH.
  - intros c rest Hc IH. cbn [encode flat_map map].
    rewrite encode_point_1 by exact Hc. cbn [app]. apply subseq_keep, IH.
  - intros used rest cp _ _ _ He IH. cbn [encode flat_map].
    rewrite He, map_app. apply subseq_app_keep, IH.
Qed.

(** No byte is removed from ASCII text. *)
Lemma decode_ignore_ascii (raw : bytes) :
  Forall (fun b => byteZ b < 0x80) raw ->
  decode_ignore raw = map byteZ raw.
Proof.
  apply decode_ignore_cases with
    (P := fun raw s => Forall (fun b => byteZ b < 0x80) raw ->
                       s = map byteZ raw).
  - intros r Hh Hl. destruct r as [|b r]; [reflexivity|].
    inversion Hh; inversion Hl; subst. unfold high in *. lia.
  - intros used rest Hne Hh _ Hl. destruct used as [|b u]; [contradiction|].
    apply Forall_app in Hl as [Hl _].
    inversion Hh; inversion Hl; subst. unfold high in *. lia.
  - intros c rest _ IH Hl. cbn [map]. inversion Hl; subst.
    f_equal. apply IH. assumption.
  - intros used rest cp Hcp _ Hh He _ Hl.
    destruct used as [|b u].
    + unfold encode_point in He. revert He. decide_ltb; discriminate.
    + apply Forall_app in Hl as [Hl _].
      inversion Hh; inversion Hl; subst. unfold high in *. lia.
Qed.

(** A decoded line has no '\n' and no '\r' unless its bytes have one. *)
Lemma decode_ignore_not_eol (raw : bytes) :
  Forall not_eol raw ->
  Forall (fun cp => cp <> 10 /\ cp <> 13) (decode_ignore raw).
Proof.
  apply decode_ignore_cases with
    (P := fun raw s => Forall not_eol raw ->
                       Forall (fun cp => cp <> 10 /\ cp <> 13) s).
  - intros. constructor.
  - intros used rest _ _ IH H. apply Forall_app in H as [_ H]. auto.
  - intros c rest _ IH H. inversion H as [|? ? [H1 H2] H3]; subst.
    constructor; [|auto].
    split; intros E.
    + apply H1. apply byteZ_inj. rewrite E. reflexivity.
    + apply H2. apply byteZ_inj. rewrite E. reflexivity.
  - intros used rest cp Hcp _ _ _ IH H. apply Forall_app in H as [_ H].
    constructor; [lia|auto].
Qed.

Ltac head_cond t :=
  lazymatch t with
  | if ?c then _ else _ => head_cond c
  | negb ?c => head_cond c
  | orb ?c _ => head_cond c
  | andb ?c _ => head_cond c
  | _ => t
  end.

Ltac decide_head :=
  match goal with
  | |- ?lhs = _ =>
      let c := head_cond lhs in
      lazymatch c with
      | ?a <? ?b => destruct (Z.ltb_spec a b); try (exfalso; lia)
      | ?a <=? ?b => destruct (Z.leb_spec a b); try (exfalso; lia)
      | ?a =? ?b => destruct (Z.eqb_spec a b); try (exfalso; lia)
      end; cbn [negb andb orb]
  end.

Lemma cons_eq_inv {A} (x y : A) (l m : list A) :
  x :: l = y :: m -> x = y /\ l = m.
Proof. intros H. injection H as -> ->. split; reflexivity. Qed.

(** Well-formed UTF-8 is decoded as it is: the decoder gives back the
    text whose encoding it reads. *)
Lemma decode_ignore_well_formed (s : str) :
  Forall scalar s ->
  forall raw, map byteZ raw = encode s -> decode_ignore raw = s.
Proof.
  induction 1 as [|cp s [Hr Hsur] Hs IH]; intros raw He.
  - destruct raw; [reflexivity|discriminate].
  - cbn [encode flat_map] in He. fold (encode s) in He.
    unfold encode_point in He.
    destruct (Z.ltb_spec cp 0x80) as [L1|L1].
    { destruct raw as [|c1 r1]; [discriminate|].
      apply cons_eq_inv in He as [E1 Er]. cbn [decode_ignore]. rewrite E1.
      repeat decide_head. f_equal. apply IH, Er. }
    destruct (Z.ltb_spec cp 0x800) as [L2|L2].
    { set (a := cp / 64) in *. set (b := cp mod 64) in *.
      assert (Ha : cp = a * 64 + b /\ 0 <= b < 64)
        by (subst a b; Z.div_mod_to_equations; lia).
      clearbody a b.
      destruct raw as [|c1 [|c2 r2]]; try discriminate.
      cbn [map app] in He.
      apply cons_eq_inv in He as [E1 He]. apply cons_eq_inv in He as [E2 Er].
      cbn [decode_ignore]. rewrite E1, E2.
      unfold is_continuation. repeat decide_head.
      f_equal; [lia|apply IH, Er]. }
    destruct (Z.ltb_spec cp 0x10000) as [L3|L3].
    { set (a := cp / 4096) in *. set (b := (cp / 64) mod 64) in *.
      set (c := cp mod 64) in *.
      assert (Ha : cp = a * 4096 + b * 64 + c /\ 0 <= b < 64 /\ 0 <= c < 64)
        by (subst a b c; Z.div_mod_to_equations; lia).
      clearbody a b c.
      destruct raw as [|c1 [|c2 [|c3 r3]]]; try discriminate.
      cbn [map app] in He.
      apply cons_eq_inv in He as [E1 He]. apply cons_eq_inv in He as [E2 He].
      apply cons_eq_inv in He as [E3 Er].
      cbn [decode_ignore]. rewrite E1, E2, E3.
      unfold is_continuation.
      repeat decide_head; (f_equal; [lia|apply IH, Er]). }
    set (a := cp / 262144) in *. set (b := (cp / 4096) mod 64) in *.
    set (c := (cp / 64) mod 64) in *. set (d := cp mod 64) in *.
    assert (Ha : cp = a * 262144 + b * 4096 + c * 64 + d
                 /\ 0 <= b < 64 /\ 0 <= c < 64 /\ 0 <= d < 64)
      by (subst a b c d; Z.div_mod_to_equations; lia).
    clearbody a b c d.
    destruct raw as [|c1 [|c2 [|c3 [|c4 r4]]]]; try discriminate.
    cbn [map app] in He.
    apply cons_eq_inv in He as [E1 He]. apply cons_eq_inv in He as [E2 He].
    apply cons_eq_inv in He as [E3 He]. apply cons_eq_inv in He as [E4 Er].
    cbn [decode_ignore]. rewrite E1, E2, E3, E4.
    unfold is_continuation.
    repeat decide_head; (f_equal; [lia|apply IH, Er]).
Qed.

(* ===================================================================== *)
(** ** The handler on a readable file *)
(* ===================================================================== *)

Lemma scan_at_end (c : bytes) (n : Z) :
  scan (at_end c) [] n = Ret (tail_handle c n, tail_buffer c n)
  /\ scan_inv c n (tail_handle c n) (tail_buffer c n)
  /\ loop_test (tail_handle c n) (tail_buffer c n) n = false.
Proof.
  destruct (scan_exit (scan_inv_init c n)) as (f & data & Hs & Hinv & Ht).
  unfold tail_handle, tail_buffer. fold (at_end c) in Hs. rewrite Hs.
  auto.
Qed.

(** How the loop can end: at the start of the file with the whole file
    in the buffer, or with more than [n] newlines in the buffer. *)
Lemma scan_at_end_cases (c : bytes) (n : Z) :
  (tell (tail_handle c n) = 0 /\ tail_buffer c n = c)
  \/ (0 < tell (tail_handle c n) /\ n < count LF (tail_buffer c n)).
Proof.
  destruct (scan_at_end c n) as (_ & Hinv & Ht).
  pose proof (inv_pos Hinv) as Hp. pose proof (inv_data Hinv) as Hd.
  unfold loop_test in Ht. apply andb_false_iff in Ht as [Ht|Ht].
  - left. assert (E : tell (tail_handle c n) = 0).
    { destruct (Z.gtb_spec (tell (tail_handle c n)) 0); [discriminate|lia]. }
    split; [exact E|]. rewrite Hd, E. reflexivity.
  - apply Z.leb_gt in Ht.
    destruct (Z.eq_dec (tell (tail_handle c n)) 0) as [E|E].
    + left. split; [exact E|]. rewrite Hd, E. reflexivity.
    + right. split; [lia|exact Ht].
Qed.

(** The buffer is an end of the file. *)
Lemma tail_buffer_suffix (c : bytes) (n : Z) :
  exists pre, c = pre ++ tail_buffer c n.
Proof.
  destruct (scan_at_end c n) as (_ & Hinv & _).
  exists (firstn (Z.to_nat (tell (tail_handle c n))) c).
  rewrite (inv_data Hinv). symmetry. apply firstn_skipn.
Qed.

(** The last [n] lines of the buffer are the last [n] lines of the file. *)
Lemma tail_buffer_lines (c : bytes) (n : Z) :
  1 <= n ->
  lastn (Z.to_nat n) (splitlines (tail_buffer c n))
  = lastn (Z.to_nat n) (splitlines c).
Proof.
  intros Hn.
  destruct (scan_at_end_cases c n) as [[_ E]|[_ Hcnt]]; [rewrite E; reflexivity|].
  destruct (tail_buffer_suffix c n) as [pre Hpre].
  remember (tail_buffer c n) as data eqn:Hdata. clear Hdata.
  destruct (splitlines_from_app pre data []) as [X HX].
  pose proof (count_le_splitlines data []) as Hlen.
  pose proof (splitlines_from_hd_tl [] data) as Hd.
  assert (Hrest : (Z.to_nat n <= length (after_break data))%nat).
  { rewrite Hd, length_app, length_firstn in Hlen. lia. }
  unfold splitlines. subst c. rewrite HX, Hd.
  rewrite !lastn_app by exact Hrest. reflexivity.
Qed.

Lemma lastn_map {A B} (g : A -> B) (k : nat) (l : list A) :
  lastn k (map g l) = map g (lastn k l).
Proof. unfold lastn. rewrite length_map, skipn_map. reflexivity. Qed.

Lemma lastn_split {A} (k : nat) (l : list A) :
  exists older, l = older ++ lastn k l.
Proof.
  exists (firstn (length l - k) l). symmetry. apply firstn_skipn.
Qed.

(** The handler on a regular file that can be read: it returns, with the
    path as [str(path)] gives it and the decoded slice of the lines of
    the buffer. *)
Lemma get_logs_readable (fs : filesystem) (file : string) (n : Z) (c : bytes) :
  fs (str_of (mkPath file)) = Regular true c ->
  get_logs fs file n =
  Ret {| file := str_of (mkPath file);
         lines := map decode_ignore
                    (slice_from (- n) (splitlines (tail_buffer c n))) |}.
Proof.
  intros Hfs. unfold get_logs, py_and, path_exists, is_file, open_rb.
  rewrite Hfs. cbn [andb negb bind].
  unfold seek, size. cbn [content pos ops]. rewrite Z.add_0_r.
  replace (Z.of_nat (length c) <? 0) with false
    by (symmetry; apply Z.ltb_ge; lia).
  cbn [bind]. fold (at_end c).
  destruct (scan_at_end c n) as (Hs & _ & _). rewrite Hs. reflexivity.
Qed.

(** For a line count the route accepts, the result is the last [n]
    logical lines of the file. *)
Lemma get_logs_tail (fs : filesystem) (file : string) (n : Z) (c : bytes) :
  fs (str_of (mkPath file)) = Regular true c ->
  1 <= n ->
  get_logs fs file n =
  Ret {| file := str_of (mkPath file);
         lines := lastn (Z.to_nat n) (logical_lines c) |}.
Proof.
  intros Hfs Hn. rewrite get_logs_readable with (c := c) by exact Hfs.
  rewrite slice_from_neg by exact Hn.
  rewrite tail_buffer_lines by exact Hn.
  unfold logical_lines. rewrite lastn_map. reflexivity.
Qed.

(** The ways the handler can end, by what the path names. *)
Lemma get_logs_cases (fs : filesystem) (file : string) (n : Z) :
  match fs (str_of (mkPath file)) with
  | Regular true c =>
      get_logs fs file n =
      Ret {| file := str_of (mkPath file);
             lines := map decode_ignore
                        (slice_from (- n) (splitlines (tail_buffer c n))) |}
  | Regular false _ =>
      get_logs fs file n = Raise (HTTPException 403 "Permission denied")
  | Absent | NotRegular =>
      get_logs fs file n = Raise (HTTPException 404 "Log file not found")
  | Unreachable e =>
      get_logs fs file n = Raise (exn_of_stat_error e)
  end.
Proof.
  destruct (fs (str_of (mkPath file))) as [| |[|] c|e] eqn:Hfs.
  - unfold get_logs, py_and, path_exists, is_file. rewrite Hfs. reflexivity.
  - unfold get_logs, py_and, path_exists, is_file. rewrite Hfs. reflexivity.
  - apply get_logs_readable, Hfs.
  - unfold get_logs, py_and, path_exists, is_file, open_rb. rewrite Hfs.
    reflexivity.
  - unfold get_logs, py_and, path_exists. rewrite Hfs. reflexivity.
Qed.

(** A stretch of bytes with no line break in it is one line. *)
Lemma splitlines_from_one_line (w cur : bytes) :
  Forall not_eol w -> w <> [] ->
  splitlines_from cur w = [rev cur ++ w].
Proof.
  revert cur. induction w as [|b w IH]; intros cur Hw Hne; [contradiction|].
  inversion Hw as [|? ? [H1 H2] Hw']; subst.
  cbn [splitlines_from].
  destruct (Byte.eqb b LF) eqn:E1; [apply byte_dec_bl in E1; contradiction|].
  destruct (Byte.eqb b CR) eqn:E2; [apply byte_dec_bl in E2; contradiction|].
  destruct w as [|b' w'].
  - cbn. reflexivity.
  - rewrite IH; [|assumption|discriminate].
    cbn [rev]. rewrite <- app_assoc. reflexivity.
Qed.

Unset Implicit Arguments.

Lemma Forall_skipn {A} (Q : A -> Prop) (k : nat) (l : list A) :
  Forall Q l -> Forall Q (skipn k l).
Proof.
  intros H. rewrite <- (firstn_skipn k l) in H.
  apply Forall_app in H. apply H.
Qed.

Lemma count_suffix_le (x : byte) (pre l : bytes) :
  count x l <= count x (pre ++ l).
Proof. rewrite count_app. pose proof (count_nonneg x pre). lia. Qed.

(** A file with at most [n] newlines is read to its start. *)
Lemma tail_buffer_whole (c : bytes) (n : Z) :
  count LF c <= n -> tell (tail_handle c n) = 0 /\ tail_buffer c n = c.
Proof.
  intros Hc. destruct (scan_at_end_cases c n) as [H|[_ H]]; [exact H|].
  destruct (tail_buffer_suffix c n) as [pre Hpre].
  pose proof (count_suffix_le LF pre (tail_buffer c n)) as Hle.
  rewrite <- Hpre in Hle. lia.
Qed.

(* ===================================================================== *)
(** ** What the loop costs *)
(* ===================================================================== *)

Lemma firstn_plus {A} (a b : nat) (l : list A) :
  firstn (a + b) l = firstn a l ++ firstn b (skipn a l).
Proof.
  revert l. induction a as [|a IH]; intros l; [reflexivity|].
  destruct l as [|x l]; cbn [Nat.add firstn skipn app].
  - rewrite firstn_nil. reflexivity.
  - rewrite IH. reflexivity.
Qed.

Lemma count_firstn_le (x : byte) (k : nat) (l : bytes) :
  count x (firstn k l) <= count x l.
Proof.
  rewrite <- (firstn_skipn k l) at 2. rewrite count_app.
  pose proof (count_nonneg x (skipn k l)). lia.
Qed.

Lemma lines_within_count (L : nat) (c : bytes) :
  lines_within L c ->
  forall (k i : nat),
    (i + k * L <= length c)%nat ->
    Z.of_nat k <= count LF (firstn (k * L) (skipn i c)).
Proof.
  intros Hw. induction k as [|k IH]; intros i Hi.
  - cbn. lia.
  - cbn [Nat.mul] in *. rewrite firstn_plus, count_app, skipn_skipn.
    pose proof (Hw i ltac:(lia)). pose proof (IH (L + i)%nat ltac:(lia)).
    lia.
Qed.

(** With lines of at most [L] bytes, an end of the file that holds at most
    [k] newlines is shorter than [k + 1] lines of full length. *)
Lemma lines_within_suffix (L : nat) (c : bytes) (k i : nat) :
  lines_within L c ->
  count LF (skipn i c) <= Z.of_nat k ->
  (length (skipn i c) < (k + 1) * L)%nat.
Proof.
  intros Hw Hc.
  destruct (Nat.lt_ge_cases (length (skipn i c)) ((k + 1) * L)) as [H|H];
    [exact H|exfalso].
  rewrite length_skipn in H.
  assert (HL : (0 < L)%nat).
  { destruct L as [|L]; [|lia]. specialize (Hw 0%nat ltac:(lia)).
    cbn in Hw. lia. }
  pose proof (lines_within_count L c Hw (k + 1) i ltac:(nia)) as Hk.
  pose proof (count_firstn_le LF ((k + 1) * L) (skipn i c)). lia.
Qed.

Lemma count_repeat_other (x y : byte) (k : nat) :
  Byte.eqb y x = false -> count x (repeat y k) = 0.
Proof.
  intros E. induction k as [|k IH]; cbn [repeat count]; [reflexivity|].
  rewrite E, IH. reflexivity.
Qed.

(** A file with no newline is buffered whole. *)
Lemma long_line_buffered (k n : Z) :
  0 <= n -> 0 <= k ->
  Z.of_nat (length (tail_buffer (long_line k) n)) = k.
Proof.
  intros Hn Hk.
  destruct (tail_buffer_whole (long_line k) n) as [_ E].
  - unfold long_line. rewrite count_repeat_other by reflexivity. exact Hn.
  - rewrite E. unfold long_line. rewrite repeat_length. lia.
Qed.

(* ===================================================================== *)
(** ** The claims *)
(* ===================================================================== *)

(** C1. On a readable regular file with at least [n] logical lines, for
    [1 <= n <= 500], the handler returns exactly the last [n] logical
    lines of the file, oldest first: the file's lines are some older lines
    followed by the returned ones, and [n] lines are returned (so at most
    [n]). *)
Theorem tail_returns_last_lines :
  forall (fs : filesystem) (file : string) (n : Z) (c : bytes),
    fs (str_of (mkPath file)) = Regular true c ->
    query_ok n ->
    n <= Z.of_nat (length (logical_lines c)) ->
    exists r older,
      get_logs fs file n = Ret r
      /\ logical_lines c = older ++ lines r
      /\ Z.of_nat (length (lines r)) = n
      /\ Z.of_nat (length (lines r)) <= n.
Proof.
  intros fs file n c Hfs [Hn _] Hlen.
  destruct (lastn_split (Z.to_nat n) (logical_lines c)) as [older Holder].
  eexists _, older. split; [apply (get_logs_tail fs file Hfs Hn)|].
  cbn [lines]. split; [exact Holder|].
  rewrite lastn_length. lia.
Qed.

Lemma tail_returns_last_lines_witness :
  exists r older,
    get_logs (one_file log_path true abc_log) log_path 2 = Ret r
    /\ logical_lines abc_log = older ++ lines r
    /\ Z.of_nat (length (lines r)) = 2
    /\ Z.of_nat (length (lines r)) <= 2.
Proof.
  apply (tail_returns_last_lines (one_file log_path true abc_log) log_path 2
           abc_log).
  - reflexivity.
  - unfold query_ok. lia.
  - vm_compute. discriminate.
Defined.

(** C2, as the code has it.  On a file that can be opened, for
    [1 <= n <= 500], decoding never fails: the handler returns one string
    for each of the last [n] raw lines, in order, none left out.  Bytes
    that are not well-formed UTF-8 are dropped and nothing takes their
    place: a decoded line, encoded again, is its raw line with some bytes
    removed.  Well-formed text loses nothing: a raw line that is the
    encoding of a text gives that text, and an ASCII line is returned as
    it is. *)
Theorem decode_drops_invalid_bytes :
  forall (fs : filesystem) (file : string) (n : Z) (c : bytes),
    fs (str_of (mkPath file)) = Regular true c ->
    query_ok n ->
    let raw_lines := lastn (Z.to_nat n) (splitlines c) in
    exists r,
      get_logs fs file n = Ret r
      /\ lines r = map decode_ignore raw_lines
      /\ length (lines r) = length raw_lines
      /\ (forall raw, subseq (encode (decode_ignore raw)) (map byteZ raw))
      /\ (forall raw s, Forall scalar s -> map byteZ raw = encode s ->
                        decode_ignore raw = s)
      /\ (forall raw, Forall (fun b => byteZ b < 0x80) raw ->
                      decode_ignore raw = map byteZ raw).
Proof.
  intros fs file n c Hfs [Hn _] raw_lines. subst raw_lines.
  eexists. split; [apply (get_logs_tail fs file Hfs Hn)|].
  cbn [lines]. unfold logical_lines. rewrite lastn_map.
  split; [reflexivity|]. split; [apply length_map|].
  split; [apply decode_ignore_subseq|].
  split; [|apply decode_ignore_ascii].
  intros raw s Hs He. apply (decode_ignore_well_formed Hs raw He).
Qed.

Lemma decode_drops_invalid_bytes_witness :
  let raw_lines := lastn (Z.to_nat 1) (splitlines corrupt_log) in
  exists r,
    get_logs (one_file log_path true corrupt_log) log_path 1 = Ret r
    /\ lines r = map decode_ignore raw_lines
    /\ length (lines r) = length raw_lines
    /\ (forall raw, subseq (encode (decode_ignore raw)) (map byteZ raw))
    /\ (forall raw s, Forall scalar s -> map byteZ raw = encode s ->
                      decode_ignore raw = s)
    /\ (forall raw, Forall (fun b => byteZ b < 0x80) raw ->
                    decode_ignore raw = map byteZ raw).
Proof.
  apply (decode_drops_invalid_bytes (one_file log_path true corrupt_log)
           log_path 1 corrupt_log).
  - reflexivity.
  - unfold query_ok. lia.
Defined.

(** C2 as stated fails: the line "a\xffb" comes back as "ab".  The byte
    0xFF is gone and no placeholder stands where it was. *)
Lemma decode_puts_no_placeholder :
  exists r,
    get_logs (one_file log_path true corrupt_log) log_path 1 = Ret r
    /\ lines r = [of_string "ab"]
    /\ ~ In REPLACEMENT (List.concat (lines r))
    /\ ~ (exists p, lines r = [[97; p; 98]]).
Proof.
  eexists. split; [vm_compute; reflexivity|]. cbn [lines].
  split; [reflexivity|]. split.
  - vm_compute. intros [H|[H|[]]]; discriminate H.
  - intros [p H]. discriminate H.
Qed.




(** C4. For [1 <= n <= 500], when the loop ends either the position is 0
    and the buffer holds the whole file, or the buffer holds at least
    [n + 1] newlines and so at least [n + 1] lines; hence, when the file
    has more than [n] lines, the first segment of the buffer, which may be
    the end of a line only, is not among the lines returned: they are
    taken from the segments after it. *)
Theorem scan_exit_overshoots :
  forall (c : bytes) (n : Z),
    query_ok n ->
    let f := tail_handle c n in
    let data := tail_buffer c n in
    scan (at_end c) [] n = Ret (f, data)
    /\ ((tell f = 0 /\ data = c)
        \/ (n + 1 <= count LF data
            /\ n + 1 <= Z.of_nat (length (splitlines data))))
    /\ (n < Z.of_nat (length (splitlines c)) ->
        exists first rest,
          splitlines data = first :: rest
          /\ slice_from (- n) (splitlines data) = slice_from (- n) rest).
Proof.
  intros c n [Hn _] f data. subst f data.
  destruct (scan_at_end c n) as (Hs & _ & _).
  split; [exact Hs|].
  pose proof (count_le_splitlines (tail_buffer c n) []) as Hlen.
  fold (splitlines (tail_buffer c n)) in Hlen.
  assert (Hcases := scan_at_end_cases c n).
  split.
  - destruct Hcases as [H|[_ H]]; [left; exact H|right; lia].
  - intros Hmore.
    assert (Hbuf : n < Z.of_nat (length (splitlines (tail_buffer c n)))).
    { destruct Hcases as [[_ E]|[_ H]]; [rewrite E; exact Hmore|lia]. }
    destruct (splitlines (tail_buffer c n)) as [|first rest] eqn:E.
    + cbn in Hbuf. lia.
    + exists first, rest. split; [reflexivity|].
      rewrite !slice_from_neg by exact Hn.
      change (first :: rest) with ([first] ++ rest).
      apply lastn_app. cbn [length] in Hbuf. lia.
Qed.

Lemma scan_exit_overshoots_witness :
  let f := tail_handle abc_log 2 in
  let data := tail_buffer abc_log 2 in
  scan (at_end abc_log) [] 2 = Ret (f, data)
  /\ ((tell f = 0 /\ data = abc_log)
      \/ (2 + 1 <= count LF data
          /\ 2 + 1 <= Z.of_nat (length (splitlines data))))
  /\ (2 < Z.of_nat (length (splitlines abc_log)) ->
      exists first rest,
        splitlines data = first :: rest
        /\ slice_from (- 2) (splitlines data) = slice_from (- 2) rest).
Proof.
  apply (scan_exit_overshoots abc_log 2). unfold query_ok. lia.
Defined.

(** C5. On a readable regular file with fewer than [n] logical lines, for
    [1 <= n <= 500], the handler succeeds and returns all the lines of the
    file, in order, nothing added, fewer than [n] of them.  A last fragment
    without a line break is a line: a file that is one such fragment gives
    that one line, and the content "hello" read for 5 lines gives
    ["hello"]. *)
Theorem tail_short_file :
  (forall (fs : filesystem) (file : string) (n : Z) (c : bytes),
      fs (str_of (mkPath file)) = Regular true c ->
      query_ok n ->
      Z.of_nat (length (logical_lines c)) < n ->
      exists r,
        get_logs fs file n = Ret r
        /\ lines r = logical_lines c
        /\ Z.of_nat (length (lines r)) < n)
  /\ (forall (w : bytes),
        Forall not_eol w -> w <> [] ->
        logical_lines w = [decode_ignore w])
  /\ get_logs (one_file log_path true (ascii_bytes "hello")) log_path 5
     = Ret {| file := log_path; lines := [of_string "hello"] |}.
Proof.
  split; [|split].
  - intros fs file n c Hfs [Hn _] Hlen.
    eexists. split; [apply (get_logs_tail fs file Hfs Hn)|].
    cbn [lines]. rewrite lastn_all by lia. split; [reflexivity|exact Hlen].
  - intros w Hw Hne. unfold logical_lines, splitlines.
    rewrite splitlines_from_one_line by assumption. reflexivity.
  - vm_compute. reflexivity.
Qed.

Lemma tail_short_file_witness :
  exists r,
    get_logs (one_file log_path true abc_log) log_path 500 = Ret r
    /\ lines r = logical_lines abc_log
    /\ Z.of_nat (length (lines r)) < 500.
Proof.
  apply (proj1 tail_short_file (one_file log_path true abc_log) log_path 500
           abc_log).
  - reflexivity.
  - unfold query_ok. lia.
  - vm_compute. reflexivity.
Defined.

(** C6. On an empty file, for [1 <= n <= 500], the handler succeeds and
    returns an empty sequence of lines. *)
Theorem tail_empty_file :
  forall (fs : filesystem) (file : string) (n : Z),
    fs (str_of (mkPath file)) = Regular true [] ->
    query_ok n ->
    get_logs fs file n = Ret {| file := str_of (mkPath file); lines := [] |}.
Proof.
  intros fs file n Hfs [Hn _].
  rewrite (get_logs_tail fs file Hfs Hn). reflexivity.
Qed.

Lemma tail_empty_file_witness :
  get_logs (one_file log_path true []) log_path 50
  = Ret {| file := str_of (mkPath log_path); lines := [] |}.
Proof.
  apply (tail_empty_file (one_file log_path true []) log_path 50).
  - reflexivity.
  - unfold query_ok. lia.
Defined.

(** C7. The loop ends, whatever the file and the line count: a turn moves
    the position back by [jump = min(f.tell(), block) > 0] bytes, so the
    loop returns after at most [ceil(size / block)] reads, with the loop
    test false; when the file never offers more than [n] newlines it ends
    at position 0 with the whole file in the buffer. *)
Theorem scan_terminates :
  forall (c : bytes) (n : Z),
    (exists f data,
        scan (at_end c) [] n = Ret (f, data)
        /\ loop_test f data n = false
        /\ Z.of_nat (reads f) * block < Z.of_nat (length c) + block
        /\ (count LF c <= n -> tell f = 0 /\ data = c))
    /\ (forall (f : fileobj) (data : bytes),
          0 < tell f <= size f ->
          exists f' data',
            scan_body f data = Ret (f', data')
            /\ 0 < Z.min (tell f) block
            /\ tell f' = tell f - Z.min (tell f) block
            /\ 0 <= tell f' < tell f).
Proof.
  intros c n. split.
  - destruct (scan_at_end c n) as (Hs & Hinv & Ht).
    exists (tail_handle c n), (tail_buffer c n).
    split; [exact Hs|]. split; [exact Ht|]. split.
    + pose proof (inv_reads_hi Hinv) as Hhi. pose proof (inv_pos Hinv) as Hp.
      pose proof (inv_content Hinv) as Hc.
      unfold size in *. rewrite Hc in *. lia.
    + apply tail_buffer_whole.
  - intros f data Hpos. eexists _, _.
    split; [apply scan_body_step; exact Hpos|].
    unfold tell in *. cbn [pos]. pose proof block_pos. lia.
Qed.

Lemma scan_terminates_witness :
  exists f' data',
    scan_body (at_end abc_log) [] = Ret (f', data')
    /\ 0 < Z.min (tell (at_end abc_log)) block
    /\ tell f' = tell (at_end abc_log) - Z.min (tell (at_end abc_log)) block
    /\ 0 <= tell f' < tell (at_end abc_log).
Proof.
  apply (proj2 (scan_terminates abc_log 2) (at_end abc_log) []).
  vm_compute. split; [reflexivity|discriminate].
Defined.

(** C8, as the code has it.  For [1 <= n <= 500]: the buffer is an end of the
    file; the reads are as many as the blocks of the buffer, the seeks one
    more than twice the reads; the loop stops at the first block that
    brings the newlines of the buffer above [n], so the buffer without its
    newest block holds at most [n] newlines.  When every [L] bytes in a
    row of the file hold a newline (a '\n': a '\r' does not count) the
    buffer is below [(n + 1) * L + block] bytes, whatever the size of the
    file; but a file with at most [n] newlines is buffered whole. *)
Theorem scan_cost :
  forall (c : bytes) (n : Z),
    query_ok n ->
    let f := tail_handle c n in
    let data := tail_buffer c n in
    scan (at_end c) [] n = Ret (f, data)
    /\ (exists pre, c = pre ++ data)
    /\ Z.of_nat (length data) <= Z.of_nat (reads f) * block
         < Z.of_nat (length data) + block
    /\ seeks f = (1 + 2 * reads f)%nat
    /\ count LF (skipn (Z.to_nat block) data) <= n
    /\ (forall L : nat,
          lines_within L c ->
          Z.of_nat (length data) < (n + 1) * Z.of_nat L + block)
    /\ (count LF c <= n -> data = c).
Proof.
  intros c n [Hn _] f data. subst f data.
  destruct (scan_at_end c n) as (Hs & Hinv & _).
  pose proof (inv_pos Hinv) as Hp. pose proof (inv_content Hinv) as Hc.
  pose proof (inv_data Hinv) as Hd.
  set (f := tail_handle c n) in *. set (data := tail_buffer c n) in *.
  assert (Hlen : Z.of_nat (length data) = size f - tell f).
  { rewrite Hd, length_skipn. unfold size in *. rewrite Hc in *. lia. }
  assert (Hprev : count LF (skipn (Z.to_nat block) data) <= n).
  { destruct (Z.eq_dec (tell f) (size f)) as [E|E].
    - assert (data = []) as ->.
      { apply length_zero_iff_nil. lia. }
      rewrite skipn_nil. cbn. lia.
    - apply (inv_prev Hinv). lia. }
  split; [exact Hs|].
  split; [apply tail_buffer_suffix|].
  split; [rewrite Hlen; split;
          [apply (inv_reads_lo Hinv)|apply (inv_reads_hi Hinv)]|].
  split; [apply (inv_seeks Hinv)|].
  split; [exact Hprev|].
  split; [|intros Hcnt; apply tail_buffer_whole, Hcnt].
  intros L Hw.
  rewrite Hd, skipn_skipn in Hprev.
  pose proof (lines_within_suffix L c (Z.to_nat n)
                (Z.to_nat block + Z.to_nat (tell f)) Hw ltac:(lia)) as Hsuf.
  rewrite length_skipn in Hsuf.
  rewrite Hd, length_skipn. pose proof block_pos. nia.
Qed.

Lemma scan_cost_witness :
  let f := tail_handle abc_log 2 in
  let data := tail_buffer abc_log 2 in
  scan (at_end abc_log) [] 2 = Ret (f, data)
  /\ (exists pre, abc_log = pre ++ data)
  /\ Z.of_nat (length data) <= Z.of_nat (reads f) * block
       < Z.of_nat (length data) + block
  /\ seeks f = (1 + 2 * reads f)%nat
  /\ count LF (skipn (Z.to_nat block) data) <= 2
  /\ (forall L : nat,
        lines_within L abc_log ->
        Z.of_nat (length data) < (2 + 1) * Z.of_nat L + block)
  /\ (count LF abc_log <= 2 -> data = abc_log).
Proof.
  apply (scan_cost abc_log 2). unfold query_ok. lia.
Defined.

Lemma cr_lines_length (m : nat) : length (cr_lines m) = (2 * m)%nat.
Proof. induction m as [|m IH]; cbn [cr_lines length]; lia. Qed.

Lemma cr_lines_count (m : nat) : count LF (cr_lines m) = 0.
Proof.
  induction m as [|m IH]; cbn [cr_lines count]; [reflexivity|].
  change (Byte.eqb x78 LF) with false. change (Byte.eqb CR LF) with false.
  rewrite IH. reflexivity.
Qed.

Lemma cr_lines_splitlines (m : nat) :
  splitlines (cr_lines m) = repeat [x78] m.
Proof.
  unfold splitlines. induction m as [|m IH]; [reflexivity|].
  cbn [cr_lines splitlines_from repeat].
  change (Byte.eqb x78 LF) with false. change (Byte.eqb x78 CR) with false.
  cbn [splitlines_from].
  change (Byte.eqb CR LF) with false. change (Byte.eqb CR CR) with true.
  cbn [rev app]. rewrite <- IH.
  destruct m as [|m']; [reflexivity|].
  cbn [cr_lines]. change (Byte.eqb x78 LF) with false. reflexivity.
Qed.

(** C8 as stated fails, and not only on one long line.  A file of 20480
    lines "x" ended by "\r" is 40960 bytes of short lines with no '\n' in
    it: at one line requested it is read with five reads and buffered
    whole, as is a file of 40960 bytes with no line break at all.  No
    multiple of the line count bounds the buffer or the reads for every
    file, not even for the files whose lines are one byte long. *)
Lemma scan_cost_grows_with_file :
  (Z.of_nat (length (splitlines (cr_lines (Z.to_nat 20480)))) = 20480
   /\ Z.of_nat (length (tail_buffer (cr_lines (Z.to_nat 20480)) 1)) = 40960
   /\ reads (tail_handle (cr_lines (Z.to_nat 20480)) 1) = 5%nat)
  /\ (Z.of_nat (length (tail_buffer (long_line 40960) 1)) = 40960
      /\ reads (tail_handle (long_line 40960) 1) = 5%nat)
  /\ ~ (exists k : Z, forall (c : bytes) (n : Z),
          query_ok n ->
          Z.of_nat (length (tail_buffer c n)) <= k * n * block)
  /\ ~ (exists k : Z, forall (c : bytes) (n : Z),
          query_ok n ->
          Z.of_nat (reads (tail_handle c n)) <= k * n)
  /\ ~ (exists k : Z, forall (c : bytes) (n : Z),
          query_ok n ->
          Forall (fun l => (length l <= 1)%nat) (splitlines c) ->
          Z.of_nat (length (tail_buffer c n)) <= k * n * block).
Proof.
  split; [|split; [|split; [|split]]].
  - repeat split; vm_compute; reflexivity.
  - split; vm_compute; reflexivity.
  - intros [k Hk].
    specialize (Hk (long_line (Z.max k 0 * block + 1)) 1
                  ltac:(unfold query_ok; lia)).
    pose proof block_pos.
    rewrite long_line_buffered in Hk by nia. nia.
  - intros [k Hk].
    set (m := (Z.max k 0 + 1) * block).
    specialize (Hk (long_line m) 1 ltac:(unfold query_ok; lia)).
    pose proof block_pos.
    destruct (scan_at_end (long_line m) 1) as (_ & Hinv & _).
    pose proof (inv_reads_lo Hinv) as Hlo.
    destruct (tail_buffer_whole (long_line m) 1) as [E _].
    { unfold long_line. rewrite count_repeat_other by reflexivity. lia. }
    rewrite E in Hlo. pose proof (inv_content Hinv) as Hc.
    unfold size in Hlo. rewrite Hc in Hlo.
    unfold long_line in Hlo at 1. rewrite repeat_length in Hlo.
    subst m. nia.
  - intros [k Hk].
    set (m := Z.to_nat (Z.max k 0 * block + 1)).
    specialize (Hk (cr_lines m) 1 ltac:(unfold query_ok; lia)).
    pose proof block_pos.
    destruct (tail_buffer_whole (cr_lines m) 1) as [_ E].
    { rewrite cr_lines_count. lia. }
    rewrite E, cr_lines_length in Hk.
    assert (Hshort : Forall (fun l : bytes => (length l <= 1)%nat)
                       (splitlines (cr_lines m))).
    { rewrite cr_lines_splitlines. apply Forall_forall.
      intros l Hl. apply repeat_spec in Hl. subst l. cbn. lia. }
    specialize (Hk Hshort). subst m. nia.
Qed.

(** C9, as the code has it.  On success the [file] field is
    [str(Path(file))]: the requested path as [pathlib] parses it, with its
    root kept and the empty and "." components dropped (so repeated and
    trailing slashes go), and nothing else done: ".." components stay, a
    relative path stays relative, no link is resolved.  It is the name
    under which the file was opened. *)
Theorem source_path_is_str_of_path :
  forall (fs : filesystem) (file : string) (n : Z) (r : LogLines),
    get_logs fs file n = Ret r ->
    source_path r = str_of (mkPath file)
    /\ (exists c, fs (source_path r) = Regular true c)
    /\ root (mkPath file) = fst (splitroot file)
    /\ (forall x, In x (parts (mkPath file))
                  <-> In x (split "/" (snd (splitroot file)))
                      /\ x <> "" /\ x <> ".").
Proof.
  intros fs name n r H.
  pose proof (get_logs_cases fs name n) as Hc.
  destruct (fs (str_of (mkPath name))) as [| |[|] c|e] eqn:Hfs;
    rewrite H in Hc; try discriminate Hc.
  injection Hc as ->. unfold source_path. cbn [file].
  split; [reflexivity|]. split; [exists c; exact Hfs|].
  unfold mkPath. destruct (splitroot name) as [rt rel].
  cbn [root parts fst snd].
  split; [reflexivity|].
  intros x. rewrite filter_In. unfold keep_part.
  rewrite andb_true_iff, !negb_true_iff, !String.eqb_neq. tauto.
Qed.

Lemma source_path_is_str_of_path_witness :
  let r := {| file := "/var/log/app.log";
              lines := [of_string "b"; of_string "c"] |} in
  source_path r = str_of (mkPath "/var//log/./app.log/")
  /\ (exists c, one_file log_path true abc_log (source_path r)
                = Regular true c)
  /\ root (mkPath "/var//log/./app.log/")
     = fst (splitroot "/var//log/./app.log/")
  /\ (forall x, In x (parts (mkPath "/var//log/./app.log/"))
                <-> In x (split "/" (snd (splitroot "/var//log/./app.log/")))
                    /\ x <> "" /\ x <> ".").
Proof.
  apply (source_path_is_str_of_path (one_file log_path true abc_log)
           "/var//log/./app.log/" 2).
  vm_compute. reflexivity.
Defined.

(** C9 as stated fails: the path "logs/../app.log" is echoed as it came,
    relative and with its ".." component, and the same file asked for as
    "app.log" is echoed under that other name. *)
Lemma source_path_not_canonical :
  exists r1 r2,
    get_logs two_spellings "logs/../app.log" 1 = Ret r1
    /\ get_logs two_spellings "app.log" 1 = Ret r2
    /\ source_path r1 = "logs/../app.log"
    /\ source_path r2 = "app.log"
    /\ canonical_shape (source_path r1) = false
    /\ lines r1 = lines r2
    /\ source_path r1 <> source_path r2.
Proof.
  eexists _, _. split; [vm_compute; reflexivity|].
  split; [vm_compute; reflexivity|]. unfold source_path. cbn [lines].
  repeat split; try reflexivity. discriminate.
Qed.

(** C10. No returned line holds a line break.  [splitlines] leaves the
    breaks out of the lines and breaks at "\r" and at "\r\n" as well as at
    "\n", so no raw line holds the byte '\n' or '\r'; decoding brings in
    none, so no returned string holds the character '\n' (10) or '\r'
    (13). *)
Theorem lines_hold_no_line_break :
  (forall data : bytes, Forall (Forall not_eol) (splitlines data))
  /\ splitlines mixed_log
     = map ascii_bytes ["one"; "two"; "three"; "four"]%string
  /\ (forall (fs : filesystem) (file : string) (n : Z) (r : LogLines),
        get_logs fs file n = Ret r ->
        Forall (Forall (fun cp => cp <> 10 /\ cp <> 13)) (lines r)).
Proof.
  assert (Hsplit : forall data, Forall (Forall not_eol) (splitlines data)).
  { intros data. apply splitlines_from_not_eol. constructor. }
  split; [exact Hsplit|]. split; [vm_compute; reflexivity|].
  intros fs file n r H.
  pose proof (get_logs_cases fs file n) as Hc.
  destruct (fs (str_of (mkPath file))) as [| |[|] c|e] eqn:Hfs;
    rewrite H in Hc; try discriminate Hc.
  injection Hc as ->. cbn [lines].
  apply Forall_map.
  assert (Hsl : Forall (Forall not_eol)
                  (slice_from (- n) (splitlines (tail_buffer c n)))).
  { unfold slice_from. apply Forall_skipn, Hsplit. }
  eapply Forall_impl; [|exact Hsl].
  intros l Hl. apply decode_ignore_not_eol, Hl.
Qed.

Lemma lines_hold_no_line_break_witness :
  Forall (Forall (fun cp => cp <> 10 /\ cp <> 13))
    [of_string "three"; of_string "four"].
Proof.
  apply (proj2 (proj2 lines_hold_no_line_break)
           (one_file log_path true mixed_log) log_path 2
           {| file := log_path;
              lines := [of_string "three"; of_string "four"] |}).
  vm_compute. reflexivity.
Defined.

(* ===================================================================== *)
(** ** Further properties of the handler *)
(* ===================================================================== *)

Lemma splitlines_from_nonempty (data cur : bytes) :
  cur <> [] \/ data <> [] -> splitlines_from cur data <> [].
Proof.
  revert cur. induction data as [|b rest IH]; intros cur H.
  - destruct H as [H|H]; [|contradiction]. destruct cur; [contradiction|].
    discriminate.
  - cbn [splitlines_from].
    destruct (Byte.eqb b LF); [discriminate|].
    destruct (Byte.eqb b CR).
    + destruct rest as [|b' rest']; [discriminate|].
      destruct (Byte.eqb b' LF); discriminate.
    + apply IH. left. discriminate.
Qed.

Lemma count_pos_nonempty (x : byte) (l : bytes) : 0 < count x l -> l <> [].
Proof. intros H ->. cbn in H. lia. Qed.

(** A file of at most one block is buffered whole, for any line count that
    is not negative. *)
Lemma small_file_buffered (c : bytes) (n : Z) :
  0 <= n -> Z.of_nat (length c) <= block -> tail_buffer c n = c.
Proof.
  intros Hn Hlen.
  destruct (scan_at_end_cases c n) as [[_ E]|[Hpos Hcnt]]; [exact E|exfalso].
  destruct (scan_at_end c n) as (_ & Hinv & _).
  pose proof (inv_pos Hinv) as Hp. pose proof (inv_content Hinv) as Hc.
  pose proof (inv_aligned Hinv Hpos) as Hal.
  pose proof (inv_data Hinv) as Hd.
  unfold size in *. rewrite Hc in *.
  destruct (reads (tail_handle c n)) as [|k].
  - assert (E : tail_buffer c n = []).
    { rewrite Hd. apply skipn_all2. lia. }
    rewrite E in Hcnt. cbn in Hcnt. lia.
  - pose proof block_pos. nia.
Qed.

(** X1. A line count of 0, which the route refuses but the handler takes,
    does not give an empty answer: the slice [[-0:]] is the whole list, so
    the handler returns every line of its buffer.  For a file that is not
    empty that is at least one line, and for a file of at most one block
    it is every line of the file. *)
Theorem zero_lines_returns_buffer :
  forall (fs : filesystem) (file : string) (c : bytes),
    fs (str_of (mkPath file)) = Regular true c ->
    exists r,
      get_logs fs file 0 = Ret r
      /\ lines r = map decode_ignore (splitlines (tail_buffer c 0))
      /\ (c <> [] -> lines r <> [])
      /\ (Z.of_nat (length c) <= block -> lines r = logical_lines c).
Proof.
  intros fs file c Hfs.
  eexists. split; [apply get_logs_readable; exact Hfs|]. cbn [lines].
  assert (Hsl : forall l : list bytes, slice_from (- 0) l = l).
  { intros l. unfold slice_from. cbn [Z.opp Z.ltb Z.compare].
    replace (Z.min 0 (Z.of_nat (length l))) with 0 by lia. reflexivity. }
  rewrite Hsl. split; [reflexivity|]. split.
  - intros Hne Hmap. apply map_eq_nil in Hmap.
    apply (splitlines_from_nonempty (tail_buffer c 0) []) in Hmap; [exact Hmap|].
    right. destruct (scan_at_end_cases c 0) as [[_ E]|[_ Hcnt]].
    + rewrite E. exact Hne.
    + apply (count_pos_nonempty LF). exact Hcnt.
  - intros Hlen. rewrite small_file_buffered by (exact Hlen || lia).
    reflexivity.
Qed.

Lemma zero_lines_returns_buffer_witness :
  exists r,
    get_logs (one_file log_path true abc_log) log_path 0 = Ret r
    /\ lines r = map decode_ignore (splitlines (tail_buffer abc_log 0))
    /\ (abc_log <> [] -> lines r <> [])
    /\ (Z.of_nat (length abc_log) <= block -> lines r = logical_lines abc_log).
Proof.
  apply (zero_lines_returns_buffer (one_file log_path true abc_log) log_path
           abc_log).
  reflexivity.
Defined.

(** X2. With a negative line count the loop test fails at once: the
    handler reads nothing, keeps an empty buffer and returns no line,
    whatever the file holds. *)
Theorem negative_lines_reads_nothing :
  forall (fs : filesystem) (file : string) (n : Z) (c : bytes),
    fs (str_of (mkPath file)) = Regular true c ->
    n < 0 ->
    get_logs fs file n = Ret {| file := str_of (mkPath file); lines := [] |}
    /\ tail_buffer c n = []
    /\ reads (tail_handle c n) = 0%nat
    /\ tell (tail_handle c n) = Z.of_nat (length c).
Proof.
  intros fs file n c Hfs Hn.
  assert (Hs : scan (at_end c) [] n = Ret (at_end c, [])).
  { rewrite scan_while. unfold loop_test. cbn [count].
    replace (0 <=? n) with false by (symmetry; apply Z.leb_gt; exact Hn).
    rewrite andb_false_r. reflexivity. }
  assert (Hb : tail_buffer c n = []) by (unfold tail_buffer; rewrite Hs; reflexivity).
  assert (Hh : tail_handle c n = at_end c)
    by (unfold tail_handle; rewrite Hs; reflexivity).
  split; [|split; [exact Hb|rewrite Hh; split; reflexivity]].
  rewrite get_logs_readable with (c := c) by exact Hfs.
  rewrite Hb. unfold slice_from, splitlines. cbn [splitlines_from].
  rewrite skipn_nil. reflexivity.
Qed.

Lemma negative_lines_reads_nothing_witness :
  get_logs (one_file log_path true abc_log) log_path (-3)
  = Ret {| file := str_of (mkPath log_path); lines := [] |}
  /\ tail_buffer abc_log (-3) = []
  /\ reads (tail_handle abc_log (-3)) = 0%nat
  /\ tell (tail_handle abc_log (-3)) = Z.of_nat (length abc_log).
Proof.
  apply (negative_lines_reads_nothing (one_file log_path true abc_log)
           log_path (-3) abc_log).
  - reflexivity.
  - lia.
Defined.

Lemma lastn_lastn {A} (n m : nat) (l : list A) :
  (n <= m)%nat -> lastn n (lastn m l) = lastn n l.
Proof.
  intros H. unfold lastn. rewrite length_skipn, skipn_skipn. f_equal. lia.
Qed.

(** X3. Asking for more lines only adds older lines in front: for
    [1 <= n <= m] the answer for [n] lines is the end of the answer for
    [m] lines, under the same path. *)
Theorem more_lines_extend_result :
  forall (fs : filesystem) (file : string) (n m : Z) (c : bytes),
    fs (str_of (mkPath file)) = Regular true c ->
    1 <= n <= m ->
    exists rn rm older,
      get_logs fs file n = Ret rn
      /\ get_logs fs file m = Ret rm
      /\ lines rm = older ++ lines rn
      /\ source_path rm = source_path rn.
Proof.
  intros fs file n m c Hfs [Hn Hm].
  destruct (lastn_split (Z.to_nat n)
              (lastn (Z.to_nat m) (logical_lines c))) as [older Ho].
  rewrite lastn_lastn in Ho by lia.
  eexists _, _, older.
  split; [apply (get_logs_tail fs file Hfs Hn)|].
  split; [apply (get_logs_tail fs file Hfs); lia|].
  cbn [lines]. split; [exact Ho|reflexivity].
Qed.

Lemma more_lines_extend_result_witness :
  exists rn rm older,
    get_logs (one_file log_path true abc_log) log_path 1 = Ret rn
    /\ get_logs (one_file log_path true abc_log) log_path 2 = Ret rm
    /\ lines rm = older ++ lines rn
    /\ source_path rm = source_path rn.
Proof.
  apply (more_lines_extend_result (one_file log_path true abc_log) log_path
           1 2 abc_log).
  - reflexivity.
  - lia.
Defined.

(** The last [n] lines of a file are fixed by any end of it that holds
    more than [n] newlines. *)
Lemma lastn_splitlines_suffix (pre d : bytes) (n : nat) :
  Z.of_nat n < count LF d ->
  lastn n (splitlines (pre ++ d)) = lastn n (after_break d).
Proof.
  intros Hcnt.
  destruct (splitlines_from_app pre d []) as [X HX].
  pose proof (count_le_splitlines d []) as Hlen.
  rewrite (splitlines_from_hd_tl [] d), length_app, length_firstn in Hlen.
  unfold splitlines. rewrite HX. apply lastn_app. lia.
Qed.

(** X4. The answer depends on the end of the file only: two files that
    share an end with more than [n] newlines in it get the same answer
    for [n] lines, whatever comes before that end. *)
Theorem result_depends_on_tail_only :
  forall (fs1 fs2 : filesystem) (file : string) (n : Z)
         (pre1 pre2 d : bytes),
    fs1 (str_of (mkPath file)) = Regular true (pre1 ++ d) ->
    fs2 (str_of (mkPath file)) = Regular true (pre2 ++ d) ->
    1 <= n ->
    n < count LF d ->
    get_logs fs1 file n = get_logs fs2 file n.
Proof.
  intros fs1 fs2 file n pre1 pre2 d H1 H2 Hn Hcnt.
  rewrite (get_logs_tail fs1 file H1 Hn), (get_logs_tail fs2 file H2 Hn).
  unfold logical_lines. rewrite !lastn_map.
  rewrite !lastn_splitlines_suffix by lia. reflexivity.
Qed.

Lemma result_depends_on_tail_only_witness :
  get_logs (one_file log_path true (ascii_bytes "old" ++ abc_log)) log_path 2
  = get_logs (one_file log_path true (corrupt_log ++ abc_log)) log_path 2.
Proof.
  apply (result_depends_on_tail_only
           (one_file log_path true (ascii_bytes "old" ++ abc_log))
           (one_file log_path true (corrupt_log ++ abc_log))
           log_path 2 (ascii_bytes "old") corrupt_log abc_log).
  - reflexivity.
  - reflexivity.
  - lia.
  - vm_compute. reflexivity.
Defined.

(** X5. The loop reads less than one block past what it needs: when an
    end [d] of the file holds more than [n] newlines, the buffer is less
    than one block longer than [d], and the reads are fewer than the
    blocks of [d] plus two, whatever the size of the file. *)
Theorem buffer_overshoot_below_one_block :
  forall (pre d : bytes) (n : Z),
    n < count LF d ->
    Z.of_nat (length (tail_buffer (pre ++ d) n))
      < Z.of_nat (length d) + block
    /\ Z.of_nat (reads (tail_handle (pre ++ d) n)) * block
         < Z.of_nat (length d) + 2 * block.
Proof.
  intros pre d n Hcnt.
  destruct (scan_at_end (pre ++ d) n) as (_ & Hinv & _).
  pose proof (inv_pos Hinv) as Hp. pose proof (inv_content Hinv) as Hc.
  pose proof (inv_data Hinv) as Hd. pose proof (inv_reads_hi Hinv) as Hhi.
  pose proof block_pos as Hb.
  set (f := tail_handle (pre ++ d) n) in *.
  set (data := tail_buffer (pre ++ d) n) in *.
  unfold size in *. rewrite Hc in *. rewrite length_app in *.
  assert (Hlen : Z.of_nat (length data) =
                 Z.of_nat (length pre + length d) - tell f).
  { rewrite Hd, length_skipn, length_app. lia. }
  assert (Hgoal : Z.of_nat (length data) < Z.of_nat (length d) + block).
  { destruct (Z.lt_ge_cases (Z.of_nat (length data))
                (Z.of_nat (length d) + block)) as [H|H]; [exact H|exfalso].
    assert (Hprev : count LF (skipn (Z.to_nat block) data) <= n)
      by (apply (inv_prev Hinv); unfold size; rewrite Hc, length_app; lia).
    assert (Hsuf : d = skipn (length pre - (Z.to_nat block + Z.to_nat (tell f)))
                         (skipn (Z.to_nat block) data)).
    { rewrite Hd, !skipn_skipn.
      match goal with
      | |- d = skipn ?k _ => replace k with (length pre) by lia
      end.
      rewrite skipn_app, skipn_all, Nat.sub_diag. reflexivity. }
    pose proof (count_skipn_le LF
                  (length pre - (Z.to_nat block + Z.to_nat (tell f)))
                  (skipn (Z.to_nat block) data)) as Hle.
    rewrite <- Hsuf in Hle. lia. }
  split; [exact Hgoal|lia].
Qed.

Lemma buffer_overshoot_below_one_block_witness :
  Z.of_nat (length (tail_buffer (long_line 40960 ++ abc_log) 2))
    < Z.of_nat (length abc_log) + block
  /\ Z.of_nat (reads (tail_handle (long_line 40960 ++ abc_log) 2)) * block
       < Z.of_nat (length abc_log) + 2 * block.
Proof.
  apply (buffer_overshoot_below_one_block (long_line 40960) abc_log 2).
  vm_compute. reflexivity.
Defined.

(** A property that every turn of the loop keeps holds when the loop
    ends. *)
Lemma scan_keeps (c : bytes) (n : Z) (I : fileobj -> bytes -> Prop) :
  (forall f d, scan_inv c n f d -> loop_test f d n = true -> I f d ->
               forall f' d', scan_body f d = Ret (f', d') -> I f' d') ->
  forall f d, scan_inv c n f d -> I f d ->
              forall f' d', scan f d n = Ret (f', d') -> I f' d'.
Proof.
  intros Hstep f.
  remember (Z.to_nat (tell f)) as k eqn:Hk. revert f Hk.
  induction k as [k IH] using lt_wf_ind. intros f Hk d Hinv HI f' d' Hs.
  rewrite scan_while in Hs.
  destruct (loop_test f d n) eqn:Ht.
  - destruct (scan_inv_step Hinv Ht)
      as (f1 & d1 & Hb & Hinv1 & Htell & Hj & _).
    rewrite Hb in Hs.
    apply (IH (Z.to_nat (tell f1))) with (f := f1) (d := d1);
      [|reflexivity|exact Hinv1| |exact Hs].
    + pose proof (inv_pos Hinv1). lia.
    + apply (Hstep f d Hinv Ht HI f1 d1 Hb).
  - injection Hs as <- <-. exact HI.
Qed.

(** X6. Every read asks for at least 1 and at most 8192 bytes, and the
    sizes asked add up to the length of the buffer: each byte of the
    buffer is read once and nothing else is read, so never more than the
    file holds.  When the loop stops before the start of the file, the
    buffer is a whole number of blocks. *)
Theorem reads_are_blocks_of_the_buffer :
  forall (c : bytes) (n : Z),
    let f := tail_handle c n in
    let data := tail_buffer c n in
    Forall (fun k => 1 <= k <= block) (read_sizes (ops f))
    /\ total (read_sizes (ops f)) = Z.of_nat (length data)
    /\ total (read_sizes (ops f)) <= Z.of_nat (length c)
    /\ (0 < tell f ->
        Z.of_nat (length data) = Z.of_nat (reads f) * block).
Proof.
  intros c n f data. subst f data.
  destruct (scan_at_end c n) as (Hs & Hinv & _).
  assert (HI : Forall (fun k => 1 <= k <= block)
                 (read_sizes (ops (tail_handle c n)))
               /\ total (read_sizes (ops (tail_handle c n)))
                  = Z.of_nat (length (tail_buffer c n))).
  { apply (scan_keeps c n
             (fun f d => Forall (fun k => 1 <= k <= block) (read_sizes (ops f))
                         /\ total (read_sizes (ops f)) = Z.of_nat (length d)))
      with (f := at_end c) (d := []);
      [|apply scan_inv_init|split; [constructor|reflexivity]|exact Hs].
    intros f d Hi Ht [Hall Hsum] f' d' Hb.
    pose proof (inv_pos Hi) as Hp.
    assert (Hpos : 0 < tell f).
    { unfold loop_test in Ht. apply andb_prop in Ht as [Ht _].
      apply Z.gtb_lt in Ht. exact Ht. }
    rewrite (scan_body_step f d (conj Hpos (proj2 Hp))) in Hb.
    injection Hb as <- <-. cbn [ops read_sizes total fold_right].
    fold (total (read_sizes (ops f))).
    pose proof block_pos. split; [constructor; [lia|exact Hall]|].
    rewrite length_app, length_firstn, length_skipn.
    unfold tell, size in *. lia. }
  destruct HI as [Hall Hsum].
  pose proof (inv_pos Hinv) as Hp.
  pose proof (inv_content Hinv) as Hc.
  pose proof (inv_data Hinv) as Hd.
  assert (Hlen : Z.of_nat (length (tail_buffer c n))
                 = size (tail_handle c n) - tell (tail_handle c n)).
  { rewrite Hd at 1. rewrite length_skipn. unfold size in *.
    rewrite Hc in *. lia. }
  split; [exact Hall|]. split; [exact Hsum|]. split.
  - rewrite Hsum, Hlen. unfold size in *. rewrite Hc in *. lia.
  - intros Hpos. rewrite Hlen. apply (inv_aligned Hinv Hpos).
Qed.

Lemma reads_are_blocks_of_the_buffer_witness :
  Z.of_nat (length (tail_buffer (long_line 40960 ++ abc_log) 2))
  = Z.of_nat (reads (tail_handle (long_line 40960 ++ abc_log) 2)) * block.
Proof.
  apply (proj2 (proj2 (proj2 (reads_are_blocks_of_the_buffer
                                (long_line 40960 ++ abc_log) 2)))).
  vm_compute. reflexivity.
Defined.

(** The lines after a newline do not depend on what is before it. *)
Lemma splitlines_from_app_lf (c0 rest cur : bytes) :
  splitlines_from cur (c0 ++ LF :: rest)
  = splitlines_from cur (c0 ++ [LF]) ++ splitlines rest.
Proof.
  remember (length c0) as k eqn:Hk. revert c0 cur Hk.
  induction k as [k IH] using lt_wf_ind. intros c0 cur Hk.
  destruct c0 as [|b p].
  - cbn [app splitlines_from]. change (Byte.eqb LF LF) with true.
    cbn [app splitlines_from]. reflexivity.
  - cbn [app splitlines_from length] in *.
    destruct (Byte.eqb b LF) eqn:E1.
    { rewrite (IH (length p) ltac:(lia) p [] eq_refl). reflexivity. }
    destruct (Byte.eqb b CR) eqn:E2.
    { destruct p as [|b' p']; cbn [app length] in *.
      - change (Byte.eqb LF LF) with true. reflexivity.
      - destruct (Byte.eqb b' LF) eqn:E3.
        + rewrite (IH (length p') ltac:(lia) p' [] eq_refl). reflexivity.
        + pose proof (IH (length (b' :: p')) ltac:(cbn; lia) (b' :: p') []
                        eq_refl) as H.
          cbn [app] in H. rewrite H. reflexivity. }
    apply (IH (length p) ltac:(lia) p (b :: cur) eq_refl).
Qed.

(** A stretch with no line break in it, then a newline, is one line. *)
Lemma splitlines_from_line_lf (w cur : bytes) :
  Forall not_eol w ->
  splitlines_from cur (w ++ [LF]) = [rev cur ++ w].
Proof.
  revert cur. induction w as [|b w IH]; intros cur Hw.
  - cbn [app splitlines_from]. change (Byte.eqb LF LF) with true.
    cbn [splitlines_from]. rewrite app_nil_r. reflexivity.
  - inversion Hw as [|? ? [H1 H2] Hw']; subst.
    cbn [app splitlines_from].
    destruct (Byte.eqb b LF) eqn:E1; [apply byte_dec_bl in E1; contradiction|].
    destruct (Byte.eqb b CR) eqn:E2; [apply byte_dec_bl in E2; contradiction|].
    rewrite IH by assumption. cbn [rev]. rewrite <- app_assoc. reflexivity.
Qed.

Lemma splitlines_append_line (c w : bytes) :
  c = [] \/ (exists c0, c = c0 ++ [LF]) ->
  Forall not_eol w ->
  splitlines (c ++ w ++ [LF]) = splitlines c ++ [w].
Proof.
  intros [->|[c0 ->]] Hw; unfold splitlines.
  - cbn [app splitlines_from]. apply (splitlines_from_line_lf w [] Hw).
  - rewrite <- app_assoc. cbn [app].
    rewrite splitlines_from_app_lf. f_equal.
    apply (splitlines_from_line_lf w [] Hw).
Qed.

Lemma lastn_snoc {A} (k : nat) (l : list A) (x : A) :
  lastn (S k) (l ++ [x]) = lastn k l ++ [x].
Proof.
  unfold lastn. rewrite length_app, skipn_app. cbn [length].
  replace (length l + 1 - S k)%nat with (length l - k)%nat by lia.
  replace (length l - k - length l)%nat with 0%nat by lia.
  reflexivity.
Qed.

(** X7. Appending a line to a log shifts the answer by one line: when the
    file is empty or ends with a newline and a line [w] with its newline
    is written after it, the answer for [n + 1] lines is the old answer
    for [n] lines followed by [w] decoded. *)
Theorem appended_line_comes_last :
  forall (fs fs' : filesystem) (file : string) (n : Z) (c w : bytes),
    fs (str_of (mkPath file)) = Regular true c ->
    fs' (str_of (mkPath file)) = Regular true (c ++ w ++ [LF]) ->
    c = [] \/ (exists c0, c = c0 ++ [LF]) ->
    Forall not_eol w ->
    1 <= n ->
    exists r r',
      get_logs fs file n = Ret r
      /\ get_logs fs' file (n + 1) = Ret r'
      /\ lines r' = lines r ++ [decode_ignore w].
Proof.
  intros fs fs' file n c w Hfs Hfs' Hc Hw Hn.
  eexists _, _.
  split; [apply (get_logs_tail fs file Hfs Hn)|].
  split; [apply (get_logs_tail fs' file Hfs'); lia|].
  cbn [lines]. unfold logical_lines.
  rewrite splitlines_append_line by assumption.
  rewrite map_app. cbn [map].
  replace (Z.to_nat (n + 1)) with (S (Z.to_nat n)) by lia.
  apply lastn_snoc.
Qed.

Lemma appended_line_comes_last_witness :
  exists r r',
    get_logs (one_file log_path true abc_log) log_path 2 = Ret r
    /\ get_logs (one_file log_path true
                   (abc_log ++ ascii_bytes "new" ++ [LF])) log_path (2 + 1)
       = Ret r'
    /\ lines r' = lines r ++ [decode_ignore (ascii_bytes "new")].
Proof.
  apply (appended_line_comes_last
           (one_file log_path true abc_log)
           (one_file log_path true (abc_log ++ ascii_bytes "new" ++ [LF]))
           log_path 2 abc_log (ascii_bytes "new")).
  - reflexivity.
  - reflexivity.
  - right. exists (ascii_bytes "a" ++ [LF] ++ ascii_bytes "b" ++ [LF]
                     ++ ascii_bytes "c"). reflexivity.
  - repeat constructor; discriminate.
  - lia.
Defined.

(** What the decoder gives is text: scalar values only, and no more of
    them than the bytes it read. *)
Lemma decode_ignore_scalar (raw : bytes) :
  Forall scalar (decode_ignore raw)
  /\ (length (decode_ignore raw) <= length raw)%nat.
Proof.
  apply decode_ignore_cases with
    (P := fun raw s => Forall scalar s /\ (length s <= length raw)%nat).
  - intros r _. split; [constructor|cbn; lia].
  - intros used rest _ _ [IH1 IH2]. split; [exact IH1|].
    rewrite length_app. lia.
  - intros c rest Hc [IH1 IH2]. split.
    + constructor; [|exact IH1]. pose proof (byteZ_range c).
      unfold scalar. lia.
    + cbn [length]. lia.
  - intros used rest cp Hcp Hsur _ He [IH1 IH2]. split.
    + constructor; [|exact IH1]. unfold scalar. split; [lia|exact Hsur].
    + rewrite length_app. cbn [length].
      assert (used <> []).
      { intros ->. unfold encode_point in He. revert He.
        decide_ltb; discriminate. }
      destruct used; [contradiction|cbn [length]; lia].
Qed.

Lemma decode_ignore_lengths (raw_lines : list bytes) :
  Forall2 (fun s raw => (length s <= length raw)%nat)
          (map decode_ignore raw_lines) raw_lines.
Proof.
  induction raw_lines as [|raw l IH]; cbn [map]; constructor;
    [apply decode_ignore_scalar|exact IH].
Qed.

(** X9. What the handler returns is text, line for line.  The strings
    returned are, in order, the decodings of the raw lines that the slice
    keeps of the buffer, which for a line count of 1 or more are the last
    [n] raw lines of the file; every one of them is made of Unicode
    scalar values only (no surrogate, nothing above U+10FFFF), so it can
    always be encoded in the response, and has no more characters than
    its raw line has bytes. *)
Theorem returned_lines_are_text :
  forall (fs : filesystem) (file : string) (n : Z) (r : LogLines),
    get_logs fs file n = Ret r ->
    exists c,
      fs (str_of (mkPath file)) = Regular true c
      /\ let raw_lines := slice_from (- n) (splitlines (tail_buffer c n)) in
         lines r = map decode_ignore raw_lines
         /\ (1 <= n -> raw_lines = lastn (Z.to_nat n) (splitlines c))
         /\ Forall (Forall scalar) (lines r)
         /\ Forall2 (fun s raw => (length s <= length raw)%nat)
                    (lines r) raw_lines.
Proof.
  intros fs name n r H.
  pose proof (get_logs_cases fs name n) as Hc.
  destruct (fs (str_of (mkPath name))) as [| |[|] c|e] eqn:Hfs;
    rewrite H in Hc; try discriminate Hc.
  injection Hc as ->. exists c. split; [reflexivity|].
  cbn [lines]. split; [reflexivity|]. split; [|split].
  - intros Hn. rewrite slice_from_neg by exact Hn.
    apply tail_buffer_lines, Hn.
  - apply Forall_map, Forall_forall. intros raw _.
    apply decode_ignore_scalar.
  - apply decode_ignore_lengths.
Qed.

Lemma returned_lines_are_text_witness :
  exists c,
    one_file log_path true corrupt_log (str_of (mkPath log_path))
    = Regular true c
    /\ let raw_lines := slice_from (- 1) (splitlines (tail_buffer c 1)) in
       [of_string "ab"] = map decode_ignore raw_lines
       /\ (1 <= 1 -> raw_lines = lastn (Z.to_nat 1) (splitlines c))
       /\ Forall (Forall scalar) [of_string "ab"]
       /\ Forall2 (fun s raw => (length s <= length raw)%nat)
                  [of_string "ab"] raw_lines.
Proof.
  apply (returned_lines_are_text (one_file log_path true corrupt_log)
           log_path 1 {| file := log_path; lines := [of_string "ab"] |}).
  vm_compute. reflexivity.
Defined.

(** X10. Through the route the handler only runs with [1 <= lines <= 500]:
    a request with a count out of that range is refused before the file is
    looked at, a request that names no count is served with 50, one that
    names no file is served from "/var/log/README".  So an answer never
    holds more than 500 lines, and never more than the count asked for. *)
Theorem route_bounds_the_answer :
  (forall (fs : filesystem) (file : option string) (n : Z),
      logs_route fs file (Some n) = None <-> ~ (1 <= n <= 500))
  /\ (forall (fs : filesystem) (file : option string) (asked : option Z)
             (r : LogLines),
        logs_route fs file asked = Some (Ret r) ->
        let n := match asked with Some n => n | None => 50 end in
        let name := match file with
                    | Some f => f
                    | None => "/var/log/README"
                    end in
        1 <= n <= 500
        /\ get_logs fs name n = Ret r
        /\ Z.of_nat (length (lines r)) <= n
        /\ Z.of_nat (length (lines r)) <= 500
        /\ (file = None -> source_path r = "/var/log/README")).
Proof.
  split.
  - intros fs fopt n. unfold logs_route, logs_query.
    destruct (Z.leb_spec 1 n) as [H1|H1], (Z.leb_spec n 500) as [H2|H2];
      cbn [andb]; split; intros H; try discriminate; try lia;
      try reflexivity; exfalso; apply H; lia.
  - intros fs fopt asked r H n name.
    unfold logs_route, logs_query in H. fold n name in H.
    destruct (Z.leb_spec 1 n) as [H1|H1]; [|discriminate].
    destruct (Z.leb_spec n 500) as [H2|H2]; [|discriminate].
    cbn [andb] in H. injection H as H.
    split; [lia|]. split; [exact H|].
    pose proof (get_logs_cases fs name n) as Hc.
    destruct (fs (str_of (mkPath name))) as [| |[|] c|e] eqn:Hfs;
      rewrite H in Hc; try discriminate Hc.
    pose proof (get_logs_tail fs name Hfs H1) as Ht.
    rewrite H in Ht. injection Ht as ->.
    cbn [lines]. rewrite lastn_length. unfold source_path. cbn [file].
    split; [lia|]. split; [lia|].
    intros ->. subst name. reflexivity.
Qed.

Lemma route_bounds_the_answer_witness :
  let n := 50 in
  let name := "/var/log/README" in
  1 <= n <= 500
  /\ get_logs (one_file "/var/log/README" true abc_log) name n
     = Ret {| file := "/var/log/README";
              lines := [of_string "a"; of_string "b"; of_string "c"] |}
  /\ Z.of_nat (length [of_string "a"; of_string "b"; of_string "c"]) <= n
  /\ Z.of_nat (length [of_string "a"; of_string "b"; of_string "c"]) <= 500
  /\ (@None string = None ->
      source_path {| file := "/var/log/README";
                     lines := [of_string "a"; of_string "b"; of_string "c"] |}
      = "/var/log/README").
Proof.
  apply (proj2 route_bounds_the_answer
           (one_file "/var/log/README" true abc_log) None None
           {| file := "/var/log/README";
              lines := [of_string "a"; of_string "b"; of_string "c"] |}).
  vm_compute. reflexivity.
Defined.

(* --------------------------------------------------------------------- *)
(** *** The echoed path is a fixed point of the parsing *)

Lemma split_not_nil (sep : ascii) (s : string) : split sep s <> [].
Proof.
  destruct s as [|c s]; cbn [split]; [discriminate|].
  destruct (Ascii.eqb c sep); [discriminate|].
  destruct (split sep s); discriminate.
Qed.

Lemma split_slash_free (s : string) : Forall slash_free (split "/" s).
Proof.
  induction s as [|c s IH]; cbn [split].
  - repeat constructor.
  - destruct (Ascii.eqb_spec c "/") as [E|E].
    + constructor; [exact I|exact IH].
    + destruct (split "/" s) as [|w ws]; [repeat constructor; exact E|].
      inversion IH; subst. constructor; [split; assumption|assumption].
Qed.

Lemma split_one (x : string) : slash_free x -> split "/" x = [x].
Proof.
  induction x as [|c x IH]; intros H; [reflexivity|].
  destruct H as [Hc Hx]. cbn [split].
  destruct (Ascii.eqb_spec c "/") as [E|E]; [contradiction|].
  rewrite (IH Hx). reflexivity.
Qed.

Lemma split_app_slash (x rest : string) :
  slash_free x ->
  split "/" (x ++ String "/" rest)%string = x :: split "/" rest.
Proof.
  induction x as [|c x IH]; intros H.
  - cbn [append split]. rewrite Ascii.eqb_refl. reflexivity.
  - destruct H as [Hc Hx]. cbn [append split].
    destruct (Ascii.eqb_spec c "/") as [E|E]; [contradiction|].
    rewrite (IH Hx). reflexivity.
Qed.

Lemma split_concat (ps : list string) :
  ps <> [] -> Forall slash_free ps -> split "/" (concat "/" ps) = ps.
Proof.
  induction ps as [|x t IH]; intros Hne Hall; [contradiction|].
  inversion Hall as [|? ? Hx Ht]; subst.
  destruct t as [|y t'].
  - cbn [concat]. apply split_one, Hx.
  - change (concat "/" (x :: y :: t'))
      with (x ++ String "/" (concat "/" (y :: t')))%string.
    rewrite split_app_slash by exact Hx.
    rewrite IH; [reflexivity|discriminate|exact Ht].
Qed.

Lemma filter_all {A} (g : A -> bool) (l : list A) :
  Forall (fun x => g x = true) l -> filter g l = l.
Proof.
  induction 1 as [|x l Hx Hl IH]; cbn [filter]; [reflexivity|].
  rewrite Hx, IH. reflexivity.
Qed.

Lemma splitroot_relative (a : ascii) (w : string) :
  a <> "/"%char -> splitroot (String a w) = (EmptyString, String a w).
Proof.
  intros H. destruct a as [[|] [|] [|] [|] [|] [|] [|] [|]];
    try reflexivity. exfalso. apply H. reflexivity.
Qed.

Lemma splitroot_one_slash (a : ascii) (w : string) :
  a <> "/"%char ->
  splitroot (String "/" (String a w)) = ("/"%string, String a w).
Proof.
  intros H. destruct a as [[|] [|] [|] [|] [|] [|] [|] [|]];
    try reflexivity. exfalso. apply H. reflexivity.
Qed.

Lemma splitroot_two_slashes (a : ascii) (w : string) :
  a <> "/"%char ->
  splitroot (String "/" (String "/" (String a w)))
  = ("//"%string, String a w).
Proof.
  intros H. destruct a as [[|] [|] [|] [|] [|] [|] [|] [|]];
    try reflexivity. exfalso. apply H. reflexivity.
Qed.

Lemma mkPath_root_parts (name : string) :
  root (mkPath name) = fst (splitroot name)
  /\ parts (mkPath name) = filter keep_part (split "/" (snd (splitroot name))).
Proof.
  unfold mkPath. destruct (splitroot name). split; reflexivity.
Qed.

(** The root of a parsed path is "", "/" or "//". *)
Lemma mkPath_root_cases (name : string) :
  root (mkPath name) = ""%string \/ root (mkPath name) = "/"%string
  \/ root (mkPath name) = "//"%string.
Proof.
  rewrite (proj1 (mkPath_root_parts name)).
  destruct name as [|a1 f1]; [left; reflexivity|].
  destruct (Ascii.eqb_spec a1 "/") as [->|E1];
    [|rewrite splitroot_relative by exact E1; left; reflexivity].
  destruct f1 as [|a2 f2]; [right; left; reflexivity|].
  destruct (Ascii.eqb_spec a2 "/") as [->|E2];
    [|rewrite splitroot_one_slash by exact E2; right; left; reflexivity].
  destruct f2 as [|a3 f3]; [right; right; reflexivity|].
  destruct (Ascii.eqb_spec a3 "/") as [->|E3];
    [right; left; reflexivity|].
  rewrite splitroot_two_slashes by exact E3. right; right; reflexivity.
Qed.

(** The components of a parsed path are names: not empty, not ".", and
    with no "/" in them. *)
Lemma mkPath_parts_names (name : string) :
  Forall slash_free (parts (mkPath name))
  /\ Forall (fun x => keep_part x = true) (parts (mkPath name)).
Proof.
  rewrite (proj2 (mkPath_root_parts name)).
  set (l := split "/" (snd (splitroot name))).
  pose proof (split_slash_free (snd (splitroot name))) as Hl. fold l in Hl.
  split; apply Forall_forall; intros x Hx; apply filter_In in Hx as [Hin Hk].
  - exact (proj1 (Forall_forall _ _) Hl x Hin).
  - exact Hk.
Qed.

(** Parsing what [str(path)] gives returns the same path. *)
Lemma mkPath_str_of (name : string) :
  mkPath (str_of (mkPath name)) = mkPath name.
Proof.
  destruct (mkPath_parts_names name) as [Hsf Hkp].
  pose proof (mkPath_root_cases name) as Hroot.
  destruct (mkPath name) as [rt ps]. cbn [root parts] in *.
  unfold str_of. cbn [root parts].
  destruct ps as [|x t].
  - destruct Hroot as [->|[->| ->]]; reflexivity.
  - assert (Hz : exists a w, concat "/" (x :: t) = String a w
                             /\ a <> "/"%char).
    { inversion Hsf as [|? ? Hx _]; inversion Hkp as [|? ? Kx _]; subst.
      destruct x as [|a w]; [discriminate Kx|]. destruct Hx as [Ha _].
      destruct t as [|y t'].
      - exists a, w. split; [reflexivity|exact Ha].
      - exists a, (w ++ String "/" (concat "/" (y :: t')))%string.
        split; [reflexivity|exact Ha]. }
    destruct Hz as (a & w & Hz & Ha).
    assert (Hparts : filter keep_part (split "/" (String a w)) = x :: t).
    { rewrite <- Hz, split_concat; [|discriminate|exact Hsf].
      apply filter_all, Hkp. }
    rewrite Hz.
    destruct Hroot as [->|[->| ->]]; cbn [append String.eqb]; unfold mkPath.
    + rewrite splitroot_relative by exact Ha. rewrite Hparts. reflexivity.
    + rewrite splitroot_one_slash by exact Ha. rewrite Hparts. reflexivity.
    + rewrite splitroot_two_slashes by exact Ha. rewrite Hparts. reflexivity.
Qed.

(** X8. The path an answer carries can be asked for again: it parses to
    the same path, so it is its own [str(Path(...))], and the handler run
    on it, on the same files, gives the same answer. *)
Theorem echoed_path_asks_the_same :
  forall (fs : filesystem) (file : string) (n : Z) (r : LogLines),
    get_logs fs file n = Ret r ->
    mkPath (source_path r) = mkPath file
    /\ str_of (mkPath (source_path r)) = source_path r
    /\ get_logs fs (source_path r) n = Ret r.
Proof.
  intros fs name n r H.
  pose proof (get_logs_cases fs name n) as Hc.
  destruct (fs (str_of (mkPath name))) as [| |[|] c|e] eqn:Hfs;
    rewrite H in Hc; try discriminate Hc.
  assert (Hsp : source_path r = str_of (mkPath name)).
  { injection Hc as ->. reflexivity. }
  rewrite Hsp. split; [apply mkPath_str_of|].
  split; [rewrite mkPath_str_of; reflexivity|].
  rewrite <- H. unfold get_logs. rewrite mkPath_str_of. reflexivity.
Qed.

Lemma echoed_path_asks_the_same_witness :
  let r := {| file := "//srv/log/app.log";
              lines := [of_string "b"; of_string "c"] |} in
  mkPath (source_path r) = mkPath "//srv///log/./app.log/"
  /\ str_of (mkPath (source_path r)) = source_path r
  /\ get_logs (one_file "//srv/log/app.log" true abc_log) (source_path r) 2
     = Ret r.
Proof.
  apply (echoed_path_asks_the_same
           (one_file "//srv/log/app.log" true abc_log)
           "//srv///log/./app.log/" 2).
  vm_compute. reflexivity.
Defined.

(* --------------------------------------------------------------------- *)
(** *** A written log is read back line by line *)

Lemma splitlines_from_written_line (l rest cur : bytes) (crlf : bool) :
  Forall not_eol l ->
  splitlines_from cur (l ++ (if crlf then [CR; LF] else [LF]) ++ rest)
  = (rev cur ++ l) :: splitlines rest.
Proof.
  revert cur. induction l as [|b l IH]; intros cur Hl.
  - rewrite app_nil_r. destruct crlf; cbn [app splitlines_from].
    + change (Byte.eqb CR LF) with false. change (Byte.eqb CR CR) with true.
      change (Byte.eqb LF LF) with true. reflexivity.
    + change (Byte.eqb LF LF) with true. reflexivity.
  - inversion Hl as [|? ? [H1 H2] Hl']; subst.
    cbn [app splitlines_from].
    destruct (Byte.eqb b LF) eqn:E1; [apply byte_dec_bl in E1; contradiction|].
    destruct (Byte.eqb b CR) eqn:E2; [apply byte_dec_bl in E2; contradiction|].
    rewrite IH by assumption. cbn [rev]. rewrite <- app_assoc. reflexivity.
Qed.

Lemma splitlines_write_lines (ls : list (bytes * bool)) (w : bytes) :
  Forall (fun x => Forall not_eol (fst x)) ls ->
  splitlines (write_lines ls ++ w) = map fst ls ++ splitlines w.
Proof.
  induction 1 as [|[l crlf] ls Hl Hls IH]; [reflexivity|].
  cbn [write_lines map fst app]. rewrite <- !app_assoc.
  unfold splitlines at 1.
  rewrite (splitlines_from_written_line l (write_lines ls ++ w) [] crlf Hl).
  rewrite IH. reflexivity.
Qed.

(** X11. A log written one line at a time is read back line by line: when
    the file is a sequence of lines, each ended by "\n" or by "\r\n", and
    maybe a last line [w] that is not ended yet, the handler returns the
    last [n] of those lines, decoded, the line breaks taken away and the
    unfinished line counted as a line. *)
Theorem written_lines_are_read_back :
  forall (fs : filesystem) (file : string) (n : Z)
         (ls : list (bytes * bool)) (w : bytes),
    fs (str_of (mkPath file)) = Regular true (write_lines ls ++ w) ->
    Forall (fun x => Forall not_eol (fst x)) ls ->
    Forall not_eol w ->
    1 <= n ->
    exists r,
      get_logs fs file n = Ret r
      /\ lines r
         = lastn (Z.to_nat n)
             (map decode_ignore
                (map fst ls ++ match w with [] => [] | _ => [w] end)).
Proof.
  intros fs file n ls w Hfs Hls Hw Hn.
  eexists. split; [apply (get_logs_tail fs file Hfs Hn)|].
  cbn [lines]. unfold logical_lines.
  rewrite splitlines_write_lines by exact Hls.
  do 3 f_equal. destruct w as [|b w']; [reflexivity|].
  unfold splitlines. rewrite splitlines_from_one_line by (exact Hw || discriminate).
  reflexivity.
Qed.

Lemma written_lines_are_read_back_witness :
  exists r,
    get_logs (one_file log_path true
                (write_lines [(ascii_bytes "one", true);
                              (ascii_bytes "two", false)]
                 ++ ascii_bytes "three")) log_path 2 = Ret r
    /\ lines r
       = lastn (Z.to_nat 2)
           (map decode_ignore
              (map fst [(ascii_bytes "one", true); (ascii_bytes "two", false)]
               ++ [ascii_bytes "three"])).
Proof.
  apply (written_lines_are_read_back
           (one_file log_path true
              (write_lines [(ascii_bytes "one", true);
                            (ascii_bytes "two", false)]
               ++ ascii_bytes "three"))
           log_path 2
           [(ascii_bytes "one", true); (ascii_bytes "two", false)]
           (ascii_bytes "three")).
  - reflexivity.
  - repeat constructor; discriminate.
  - repeat constructor; discriminate.
  - lia.
Defined.
